(** * ai-website: three Flask gateways in front of a hosted LLM

    The repository holds three stand-alone applications,
    [app-gemini.py], [app-groq.py] and [app-mercury.py].  Each keeps one
    mutable system prompt, turns the request path into a topic phrase,
    composes a prompt, calls its provider once, strips markdown fences
    from the answer and returns it as an HTML response.

    Python [str] values are modelled as lists of Unicode code points;
    the functions of this file follow the source statement by
    statement. *)

From Stdlib Require Import Strings.String Strings.Ascii Numbers.DecimalString.
From Stdlib Require Import List NArith ZArith Bool Lia Arith.
Import ListNotations.

(** ** Python strings *)

Definition char := N.
Definition str := list char.

(** An ASCII-only source literal. *)
Definition lit (s : string) : str :=
  map N_of_ascii (list_ascii_of_string s).

(** The double quote and the line feed, written apart from the
    literals. *)
Definition dq : str := [34%N].
Definition nl : str := [10%N].

(** [s == t] on [str]. *)
Fixpoint str_eqb (s t : str) : bool :=
  match s, t with
  | [], [] => true
  | a :: s', b :: t' => N.eqb a b && str_eqb s' t'
  | _, _ => false
  end.

(** Truth value of a [str] in a condition: the empty string is false. *)
Definition truthy (s : str) : bool :=
  match s with [] => false | _ :: _ => true end.

(** [s.startswith(p)]. *)
Fixpoint starts_with (p s : str) : bool :=
  match p, s with
  | [], _ => true
  | _ :: _, [] => false
  | a :: p', b :: s' => N.eqb a b && starts_with p' s'
  end.

(** [s.find(sub)]: the index of the first occurrence, if any. *)
Fixpoint find (sub s : str) : option nat :=
  if starts_with sub s then Some 0
  else match s with
       | [] => None
       | _ :: s' => option_map S (find sub s')
       end.

(** [sub in s]. *)
Definition contains (sub s : str) : bool :=
  match find sub s with Some _ => true | None => false end.

(** [s.replace(old, new)] for a non-empty [old] (every call site passes
    a non-empty literal): a left-to-right scan that, at an occurrence
    of [old], emits [new] and jumps over the occurrence.  [skip] counts
    the characters of the current occurrence still to jump over. *)
Fixpoint replace_from (old new : str) (skip : nat) (s : str) : str :=
  match s with
  | [] => []
  | c :: s' =>
      match skip with
      | S k => replace_from old new k s'
      | O =>
          if starts_with old s
          then new ++ replace_from old new (length old - 1) s'
          else c :: replace_from old new 0 s'
      end
  end.

Definition replace (old new s : str) : str := replace_from old new 0 s.

(** [s.split(sep, 1)]: the list of the text before and the text after
    the first occurrence of [sep], or the one-element list [[s]] when
    [sep] does not occur. *)
Definition split_max1 (sep s : str) : list str :=
  match find sep s with
  | Some i => [firstn i s; skipn (i + length sep) s]
  | None => [s]
  end.

(** The characters [str.strip()] removes: the code points Python
    classifies as whitespace. *)
Definition is_space (c : char) : bool :=
  ((9 <=? c) && (c <=? 13) || (28 <=? c) && (c <=? 32)
   || (c =? 133) || (c =? 160) || (c =? 5760)
   || (8192 <=? c) && (c <=? 8202)
   || (c =? 8232) || (c =? 8233) || (c =? 8239) || (c =? 8287)
   || (c =? 12288))%N.

Fixpoint lstrip (s : str) : str :=
  match s with
  | [] => []
  | c :: s' => if is_space c then lstrip s' else s
  end.

Definition rstrip (s : str) : str := rev (lstrip (rev s)).

(** [s.strip()]: the left index advances over whitespace, then the
    right index retreats over whitespace. *)
Definition strip (s : str) : str := rstrip (lstrip s).

(** [s[:n]] and [s[-n:]] for a non-negative literal [n]. *)
Definition slice_to (n : nat) (s : str) : str := firstn n s.
Definition slice_last (n : nat) (s : str) : str := skipn (length s - n) s.

(** [str(i)] for an [int]. *)
Definition str_of_int (i : Z) : str :=
  lit (NilZero.string_of_int (Z.to_int i)).

(** ["\n".join(lines)], used to write multi-line literals. *)
Fixpoint lines (ls : list str) : str :=
  match ls with
  | [] => []
  | [l] => l
  | l :: ls' => l ++ nl ++ lines ls'
  end.


(** ** Effects

    A handler reads and writes the module-level [current_system_prompt],
    prints, calls its provider and may raise.  [World] is the part of
    the process state the handlers touch; the provider calls made so far
    are recorded in it. *)

Inductive PyResult (A : Type) : Type :=
| Return (a : A)
| Raise (e : str).
Arguments Return {A} a.
Arguments Raise {A} e.

(** An outbound provider call with the arguments the source passes
    (the floating-point sampling parameters are not represented). *)
Inductive Call : Type :=
| GenerateContent (model prompt : str) (top_k max_output_tokens : Z)
| ChatCompletion (model : str) (messages : list (str * str)) (max_tokens : Z)
| HttpPost (url : str) (headers : list (str * str)) (model : str)
    (messages : list (str * str)) (max_tokens : Z).

(** What [requests.post] hands back: the status code, the raw body and
    the outcome of [response.json()['choices'][0]['message']['content']],
    which raises on a body of another shape. *)
Record HttpResponse : Type := {
  status_code : Z;
  text : str;
  json_content : PyResult str
}.

Record World : Type := {
  current_system_prompt : str;
  upstream_calls : list Call;
  stdout : list str
}.

Definition M (A : Type) : Type := World -> PyResult A * World.

Definition ret {A} (a : A) : M A := fun w => (Return a, w).
Definition bind {A B} (m : M A) (f : A -> M B) : M B :=
  fun w => match m w with
           | (Return a, w') => f a w'
           | (Raise e, w') => (Raise e, w')
           end.
Definition lift {A} (r : PyResult A) : M A := fun w => (r, w).

Notation "x <- m ;; k" := (bind m (fun x => k))
  (at level 61, m at next level, right associativity).
Notation "m ;;; k" := (bind m (fun _ => k))
  (at level 61, right associativity).

(** [try: body except Exception as e: handler(e)]; what the body did to
    the world before raising stays done. *)
Definition try_except {A} (body : M A) (handler : str -> M A) : M A :=
  fun w => match body w with
           | (Return a, w') => (Return a, w')
           | (Raise e, w') => handler e w'
           end.

Definition print (s : str) : M unit :=
  fun w => (Return tt,
            {| current_system_prompt := current_system_prompt w;
               upstream_calls := upstream_calls w;
               stdout := stdout w ++ [s] |}).

Definition read_prompt : M str :=
  fun w => (Return (current_system_prompt w), w).

Definition write_prompt (p : str) : M unit :=
  fun w => (Return tt,
            {| current_system_prompt := p;
               upstream_calls := upstream_calls w;
               stdout := stdout w |}).

(** One blocking call to the provider. *)
Definition call {R} (provider : Call -> PyResult R) (c : Call) : M R :=
  fun w => (provider c,
            {| current_system_prompt := current_system_prompt w;
               upstream_calls := upstream_calls w ++ [c];
               stdout := stdout w |}).

(** [l[i]] on a list, raising [IndexError] out of range. *)
Definition index (l : list str) (i : nat) : PyResult str :=
  match nth_error l i with
  | Some x => Return x
  | None => Raise (lit "list index out of range")
  end.

Definition pbind {A B} (r : PyResult A) (f : A -> PyResult B) : PyResult B :=
  match r with
  | Return a => f a
  | Raise e => Raise e
  end.

(** ** Flask *)

Record Response : Type := {
  data : str;
  status : Z;
  mimetype : str
}.

(** [Response(body, mimetype=...)]: the status defaults to 200. *)
Definition Response_ (body mimetype : str) : Response :=
  {| data := body; status := 200; mimetype := mimetype |}.

(** A view that returns a [str] is wrapped by Flask into a 200 response
    of its default mimetype. *)
Definition make_response (body : str) : Response :=
  Response_ body (lit "text/html").

(** How the module-level code of an application ends: [exit()] before
    [app.run], or [app.run] reached with the initial world. *)
Inductive Startup : Type :=
| Exited (out : list str)
| Serving (w : World).

(** [os.environ.get(name, "")]. *)
Definition environ_get (var : option str) : str :=
  match var with Some v => v | None => [] end.

(** ** Code the three files share verbatim *)

Definition fence_html : str := lit "```html".
Definition fence : str := lit "```".
Definition DOCTYPE : str := lit "<!DOCTYPE html>".
Definition HTML_TAG : str := lit "<html".
Definition separator : str := nl ++ nl ++ lit "---USER REQUEST---" ++ nl.

(** [generated_html.replace('```html', '').replace('```', '')]. *)
Definition remove_fences (generated_html : str) : str :=
  replace fence [] (replace fence_html [] generated_html).

(** The page returned after a successful prompt update. *)
Definition prompt_updated_page : str :=
  lines [
    [];
    lit "            <!DOCTYPE html>";
    lit "            <html>";
    lit "            <head>";
    lit "                <title>Prompt Updated</title>";
    lit "                <script src=" ++ dq ++ lit "https://cdn.tailwindcss.com" ++ dq ++ lit "></script>";
    lit "            </head>";
    lit "            <body class=" ++ dq ++ lit "bg-gray-100 p-8" ++ dq ++ lit ">";
    lit "                <div class=" ++ dq ++ lit "max-w-2xl mx-auto bg-white p-6 rounded-lg shadow-lg" ++ dq ++ lit ">";
    lit "                    <h1 class=" ++ dq ++ lit "text-2xl font-bold text-green-600 mb-4" ++ dq ++ lit ">System Prompt Updated Successfully!</h1>";
    lit "                    <p class=" ++ dq ++ lit "mb-4" ++ dq ++ lit ">The new system prompt has been applied.</p>";
    lit "                    <div class=" ++ dq ++ lit "space-x-4" ++ dq ++ lit ">";
    lit "                        <a href=" ++ dq ++ lit "/" ++ dq ++ lit " class=" ++ dq ++ lit "bg-blue-500 hover:bg-blue-700 text-white font-bold py-2 px-4 rounded" ++ dq ++ lit ">Go to Home</a>";
    lit "                        <a href=" ++ dq ++ lit "/change-prompt" ++ dq ++ lit " class=" ++ dq ++ lit "bg-gray-500 hover:bg-gray-700 text-white font-bold py-2 px-4 rounded" ++ dq ++ lit ">Change Prompt Again</a>";
    lit "                    </div>";
    lit "                </div>";
    lit "            </body>";
    lit "            </html>";
    lit "            "
  ].

(** The form of the GET branch, with the current prompt interpolated
    unescaped. *)
Definition change_prompt_form (prompt : str) : str :=
  lines [
    [];
    lit "    <!DOCTYPE html>";
    lit "    <html>";
    lit "    <head>";
    lit "        <title>Change System Prompt</title>";
    lit "        <script src=" ++ dq ++ lit "https://cdn.tailwindcss.com" ++ dq ++ lit "></script>";
    lit "    </head>";
    lit "    <body class=" ++ dq ++ lit "bg-gray-100 p-8" ++ dq ++ lit ">";
    lit "        <div class=" ++ dq ++ lit "max-w-4xl mx-auto bg-white p-6 rounded-lg shadow-lg" ++ dq ++ lit ">";
    lit "            <h1 class=" ++ dq ++ lit "text-3xl font-bold mb-6" ++ dq ++ lit ">Change System Prompt</h1>";
    lit "            <form method=" ++ dq ++ lit "POST" ++ dq ++ lit " class=" ++ dq ++ lit "space-y-4" ++ dq ++ lit ">";
    lit "                <div>";
    lit "                    <label for=" ++ dq ++ lit "new_prompt" ++ dq ++ lit " class=" ++ dq ++ lit "block text-sm font-medium text-gray-700 mb-2" ++ dq ++ lit ">Current System Prompt:</label>";
    lit "                    <textarea name=" ++ dq ++ lit "new_prompt" ++ dq ++ lit " id=" ++ dq ++ lit "new_prompt" ++ dq ++ lit " rows=" ++ dq ++ lit "10" ++ dq ++ lit " class=" ++ dq ++ lit "w-full p-3 border border-gray-300 rounded-md focus:ring-blue-500 focus:border-blue-500" ++ dq ++ lit ">" ++ prompt ++ lit "</textarea>";
    lit "                </div>";
    lit "                <div class=" ++ dq ++ lit "space-x-4" ++ dq ++ lit ">";
    lit "                    <button type=" ++ dq ++ lit "submit" ++ dq ++ lit " class=" ++ dq ++ lit "bg-green-500 hover:bg-green-700 text-white font-bold py-2 px-4 rounded" ++ dq ++ lit ">Update Prompt</button>";
    lit "                    <a href=" ++ dq ++ lit "/" ++ dq ++ lit " class=" ++ dq ++ lit "bg-gray-500 hover:bg-gray-700 text-white font-bold py-2 px-4 rounded inline-block" ++ dq ++ lit ">Cancel</a>";
    lit "                </div>";
    lit "            </form>";
    lit "        </div>";
    lit "    </body>";
    lit "    </html>";
    lit "    "
  ].

(** [change_prompt()], identical in the three files; [method] is
    [request.method] and [new_prompt] is [request.form.get('new_prompt')]. *)
Definition change_prompt (method : str) (new_prompt : option str) : M str :=
  let show_form := (prompt <- read_prompt ;; ret (change_prompt_form prompt)) in
  if str_eqb method (lit "POST") then
    match new_prompt with
    | Some p =>
        if truthy p then write_prompt p ;;; ret prompt_updated_page
        else show_form
    | None => show_form
    end
  else show_form.

(** The first lines of [catch_all]: the topic phrase of a path. *)
Definition page_name_of (path : str) : str :=
  if negb (truthy path) then lit "home"
  else replace (lit "_") (lit " ") (replace (lit "/") (lit " ") path).

(** ** app-gemini.py *)
Module Gemini.

Definition initial_system_prompt : str :=
    lit "You are a professional web developer. Your task is to generate complete, " ++
    lit "modern, and well-structured HTML for a web page based on the user's request. " ++
    lit "You must include the full HTML structure, including <!DOCTYPE html>, <html>, " ++
    lit "<head>, and <body> tags. Use Tailwind CSS for styling by including the " ++
    lit "official Tailwind CDN link in the <head> section. Always include clickable " ++
    lit "buttons and navigation links to other pages. Make sure all buttons are functional " ++
    lit "and lead to relevant pages.".

Definition startup (GOOGLE_API_KEY_var : option str) : Startup :=
  let GOOGLE_API_KEY := environ_get GOOGLE_API_KEY_var in
  if negb (truthy GOOGLE_API_KEY)
     || str_eqb GOOGLE_API_KEY (lit "your-fallback-api-key-here")
  then
    Exited [lit "ERROR: The Google API key is not set.";
            lit "Please set it as an environment variable (GOOGLE_API_KEY)."]
  else
    Serving {| current_system_prompt := initial_system_prompt;
               upstream_calls := [];
               stdout := [lit "Using Google API key: "
                          ++ slice_to 10 GOOGLE_API_KEY ++ lit "..."
                          ++ slice_last 4 GOOGLE_API_KEY] |}.

(** The statements of [generate_html_with_llm] between the provider's
    answer and [return generated_html]. *)
Definition sanitize (response_text : str) : PyResult str :=
  let generated_html := strip response_text in
  let generated_html := remove_fences generated_html in
  if contains DOCTYPE generated_html then
    pbind (index (split_max1 DOCTYPE generated_html) 1)
          (fun rest => Return (DOCTYPE ++ rest))
  else if contains HTML_TAG generated_html then
    pbind (index (split_max1 HTML_TAG generated_html) 1)
          (fun rest => Return (HTML_TAG ++ rest))
  else Return generated_html.

Definition full_prompt_of (system_prompt page_prompt : str) : str :=
  system_prompt ++ separator ++ page_prompt.

Definition clean_prompt_of (full_prompt : str) : str :=
  lit "Generate ONLY complete, functional HTML code. Do not include any explanations, comments, or text before/after the HTML. Start directly with <!DOCTYPE html> and end with </html>. No markdown formatting."
  ++ nl ++ nl ++ full_prompt.

Section App.
(** [model.generate_content(...)] followed by [response.text]. *)
Variable generate_content : Call -> PyResult str.

Definition generate_html_with_llm (page_prompt : str) : M str :=
  try_except
    (system_prompt <- read_prompt ;;
     let full_prompt := full_prompt_of system_prompt page_prompt in
     let clean_prompt := clean_prompt_of full_prompt in
     response_text <-
       call generate_content
            (GenerateContent (lit "gemini-2.5-pro") clean_prompt 64 4000) ;;
     generated_html <- lift (sanitize response_text) ;;
     ret generated_html)
    (fun e =>
       print (lit "An unexpected error occurred with the Google Gemini API: " ++ e) ;;;
       ret (lit "<h1>Error: Could not connect to the Google Gemini API</h1><p>"
            ++ e ++ lit "</p>")).

Definition page_prompt_of (page_name : str) : str :=
  lines [
    lit "Generate the HTML for a page about '" ++ page_name ++ lit "'. The page should have a clean and modern design. ";
    lit "    Make the content interesting and relevant to the topic. If it's a product, include a price and a buy button. ";
    lit "    If it's a blog post, make it informative. ";
    lit "    ";
    lit "    IMPORTANT: Include the following navigation elements:";
    lit "    - A navigation bar with links to: /about, /products, /blog, /contact";
    lit "    - A " ++ dq ++ lit "Change System Prompt" ++ dq ++ lit " button that links to /change-prompt";
    lit "    - At least 3 clickable buttons that lead to different pages (be creative with the links)";
    lit "    - Make sure all buttons and links are properly styled with Tailwind CSS";
    lit "    - Include hover effects on all interactive elements";
    lit "    ";
    lit "    The page should feel like a real website with functional navigation."
  ].

Definition catch_all (path : str) : M Response :=
  let page_name := page_name_of path in
  let prompt := page_prompt_of page_name in
  print (lit "Generating page for path: /" ++ path) ;;;
  print (lit "Generated prompt: " ++ prompt) ;;;
  html_content <- generate_html_with_llm prompt ;;
  ret (Response_ html_content (lit "text/html")).
End App.

End Gemini.

(** ** app-groq.py *)
Module Groq.

Definition initial_system_prompt : str :=
    lit "You are an elite UI/UX architect and full-stack developer specializing in cutting-edge web experiences. " ++
    lit "Create stunning, modern HTML pages that push the boundaries of web design. Your output must be:" ++
    nl ++ nl ++ [127912%N] ++ lit " VISUAL EXCELLENCE:" ++
    lit "- Use advanced Tailwind CSS with custom animations, gradients, and glassmorphism effects" ++
    lit "- Implement dark/light mode toggle with smooth transitions" ++
    lit "- Add subtle parallax scrolling, hover animations, and micro-interactions" ++
    lit "- Use modern typography with variable fonts and perfect spacing" ++
    lit "- Include beautiful hero sections with animated backgrounds" ++
    nl ++ nl ++ [9889%N] ++ lit " INTERACTIVE COMPONENTS:" ++
    lit "- Create responsive navigation with mobile hamburger menu" ++
    lit "- Add interactive cards, modals, and dropdown menus" ++
    lit "- Implement smooth scroll behavior and section transitions" ++
    lit "- Include loading animations and skeleton screens" ++
    lit "- Add interactive forms with real-time validation styling" ++
    nl ++ nl ++ [128640%N] ++ lit " MODERN FEATURES:" ++
    lit "- Use CSS Grid and Flexbox for perfect layouts" ++
    lit "- Implement progressive disclosure and accordion components" ++
    lit "- Add search functionality with live filtering" ++
    lit "- Include social media integration and sharing buttons" ++
    lit "- Create interactive dashboards with charts and metrics" ++
    nl ++ nl ++ [128241%N] ++ lit " RESPONSIVE DESIGN:" ++
    lit "- Mobile-first approach with perfect tablet and desktop scaling" ++
    lit "- Touch-friendly interactions and gesture support" ++
    lit "- Optimized performance with lazy loading" ++
    nl ++ nl ++ lit "Always include complete HTML structure with <!DOCTYPE html>, proper meta tags, " ++
    lit "Tailwind CSS CDN, and ensure all interactive elements are functional. " ++
    lit "Make every page feel like a premium, modern web application.".

Definition startup (GROQ_API_KEY_var : option str) : Startup :=
  let GROQ_API_KEY := environ_get GROQ_API_KEY_var in
  let key_digest :=
    slice_to 10 GROQ_API_KEY ++ lit "..." ++ slice_last 4 GROQ_API_KEY in
  let first :=
    if negb (truthy GROQ_API_KEY) || str_eqb GROQ_API_KEY []
    then lit "WARNING: Using fallback Groq API key. Please set GROQ_API_KEY environment variable for production use."
    else lit "Using Groq API key: " ++ key_digest in
  Serving {| current_system_prompt := initial_system_prompt;
             upstream_calls := [];
             stdout := [first; lit "Groq API key configured: " ++ key_digest] |}.

Definition sanitize (content : str) : PyResult str :=
  let generated_html := strip content in
  let generated_html := remove_fences generated_html in
  if contains DOCTYPE generated_html then
    pbind (index (split_max1 DOCTYPE generated_html) 1)
          (fun rest => Return (DOCTYPE ++ rest))
  else if contains HTML_TAG generated_html then
    pbind (index (split_max1 HTML_TAG generated_html) 1)
          (fun rest => Return (HTML_TAG ++ rest))
  else Return generated_html.

Definition full_prompt_of (system_prompt page_prompt : str) : str :=
  system_prompt ++ separator ++ page_prompt.

Definition system_message : str :=
  lit "You are an elite UI/UX architect. Generate ONLY complete, functional HTML code. Do not include any explanations, comments, or text before/after the HTML. Start directly with <!DOCTYPE html> and end with </html>. No markdown formatting.".

Section App.
(** [client.chat.completions.create(...)] followed by
    [.choices[0].message.content]. *)
Variable create : Call -> PyResult str.
(** [str.upper], whose Unicode case table is not part of the
    application. *)
Variable str_upper : str -> str.

Definition generate_html_with_llm (page_prompt : str) : M str :=
  try_except
    (system_prompt <- read_prompt ;;
     let full_prompt := full_prompt_of system_prompt page_prompt in
     content <-
       call create
            (ChatCompletion (lit "qwen2.5-72b-instruct")
               [(lit "system", system_message); (lit "user", full_prompt)]
               4000) ;;
     generated_html <- lift (sanitize content) ;;
     ret generated_html)
    (fun e =>
       print (lit "An unexpected error occurred with the Groq API: " ++ e) ;;;
       ret (lit "<h1>Error: Could not connect to the Groq API</h1><p>"
            ++ e ++ lit "</p>")).

Definition page_prompt_of (page_name : str) : str :=
  lines [
    [128640%N] ++ lit " CREATE AN EXCEPTIONAL '" ++ str_upper page_name ++ lit "' PAGE:";
    lit "    ";
    lit "    " ++ [128203%N] ++ lit " CONTENT REQUIREMENTS:";
    lit "    - Generate rich, engaging content relevant to '" ++ page_name ++ lit "'";
    lit "    - Include interactive elements: counters, progress bars, live data displays";
    lit "    - Add testimonials, reviews, or user-generated content sections";
    lit "    - Implement search/filter functionality where applicable";
    lit "    - Include call-to-action sections with conversion-optimized design";
    lit "    ";
    lit "    " ++ [127919%N] ++ lit " MANDATORY UI COMPONENTS:";
    lit "    - Stunning hero section with animated gradient background";
    lit "    - Responsive navigation bar with smooth mobile hamburger menu";
    lit "    - " ++ dq ++ lit "Change System Prompt" ++ dq ++ lit " button (styled as premium feature)";
    lit "    - Minimum 5 interactive buttons/cards leading to: /dashboard, /analytics, /settings, /profile, /explore";
    lit "    - Floating action button (FAB) for quick actions";
    lit "    - Breadcrumb navigation for better UX";
    lit "    - Footer with social links and newsletter signup";
    lit "    ";
    lit "    " ++ [10024%N] ++ lit " ADVANCED FEATURES TO IMPLEMENT:";
    lit "    - Dark/light mode toggle with system preference detection";
    lit "    - Loading skeletons and smooth page transitions";
    lit "    - Interactive charts or data visualizations (using CSS/SVG)";
    lit "    - Modal dialogs and toast notifications";
    lit "    - Infinite scroll or pagination components";
    lit "    - Real-time search with autocomplete suggestions";
    lit "    - Drag-and-drop interfaces where relevant";
    lit "    - Progressive web app features (offline indicators)";
    lit "    ";
    lit "    " ++ [127912%N] ++ lit " VISUAL EXCELLENCE:";
    lit "    - Glassmorphism cards with backdrop blur effects";
    lit "    - Animated icons and micro-interactions";
    lit "    - Custom CSS animations for scroll-triggered reveals";
    lit "    - Beautiful color schemes with proper contrast ratios";
    lit "    - Typography hierarchy with perfect spacing";
    lit "    - Subtle shadows and depth for modern layering";
    lit "    ";
    lit "    Make this the most impressive, modern TUI experience possible!"
  ].

Definition catch_all (path : str) : M Response :=
  let page_name := page_name_of path in
  let prompt := page_prompt_of page_name in
  print (lit "Generating page for path: /" ++ path) ;;;
  print (lit "Generated prompt: " ++ prompt) ;;;
  html_content <- generate_html_with_llm prompt ;;
  ret (Response_ html_content (lit "text/html")).
End App.

End Groq.

(** ** app-mercury.py *)
Module Mercury.

Definition initial_system_prompt : str :=
    lit "You are a professional web developer. Your task is to generate complete, " ++
    lit "modern, and well-structured HTML for a web page based on the user's request. " ++
    lit "You must include the full HTML structure, including <!DOCTYPE html>, <html>, " ++
    lit "<head>, and <body> tags. Use Tailwind CSS for styling by including the " ++
    lit "official Tailwind CDN link in the <head> section. Always include clickable " ++
    lit "buttons and navigation links to other pages. Make sure all buttons are functional " ++
    lit "and lead to relevant pages.".

Definition startup (INCEPTION_API_KEY_var : option str) : Startup :=
  let INCEPTION_API_KEY := environ_get INCEPTION_API_KEY_var in
  if negb (truthy INCEPTION_API_KEY) || str_eqb INCEPTION_API_KEY []
  then
    Exited [lit "ERROR: The Inception Labs API key is not set.";
            lit "Please set it as an environment variable (INCEPTION_API_KEY)."]
  else
    Serving {| current_system_prompt := initial_system_prompt;
               upstream_calls := [];
               stdout := [lit "Using API key: "
                          ++ slice_to 10 INCEPTION_API_KEY ++ lit "..."
                          ++ slice_last 4 INCEPTION_API_KEY] |}.

(** The statements of the status-200 branch between the decoded
    content and [return generated_html]. *)
Definition sanitize (content : str) : PyResult str :=
  let generated_html := strip content in
  let generated_html := remove_fences generated_html in
  Return generated_html.

Definition full_prompt_of (system_prompt page_prompt : str) : str :=
  system_prompt ++ separator ++ page_prompt.

Section App.
Variable INCEPTION_API_KEY : str.
(** [requests.post(...)]. *)
Variable post : Call -> PyResult HttpResponse.

Definition generate_html_with_llm (page_prompt : str) : M str :=
  try_except
    (system_prompt <- read_prompt ;;
     let full_prompt := full_prompt_of system_prompt page_prompt in
     response <-
       call post
            (HttpPost (lit "https://api.inceptionlabs.ai/v1/chat/completions")
               [(lit "Content-Type", lit "application/json");
                (lit "Authorization", lit "Bearer " ++ INCEPTION_API_KEY)]
               (lit "mercury-coder")
               [(lit "user", full_prompt)]
               2000) ;;
     if Z.eqb (status_code response) 200 then
       content <- lift (json_content response) ;;
       generated_html <- lift (sanitize content) ;;
       ret generated_html
     else
       print (lit "API request failed with status code: "
              ++ str_of_int (status_code response)) ;;;
       print (lit "Response: " ++ text response) ;;;
       ret (lit "<h1>Error: API request failed</h1><p>Status code: "
            ++ str_of_int (status_code response) ++ lit "</p>"))
    (fun e =>
       print (lit "An unexpected error occurred with the Inception Labs API: " ++ e) ;;;
       ret (lit "<h1>Error: Could not connect to the Inception Labs API</h1><p>"
            ++ e ++ lit "</p>")).

Definition page_prompt_of (page_name : str) : str :=
  lines [
    lit "Generate the HTML for a page about '" ++ page_name ++ lit "'. The page should have a clean and modern design. ";
    lit "    Make the content interesting and relevant to the topic. If it's a product, include a price and a buy button. ";
    lit "    If it's a blog post, make it informative. ";
    lit "    ";
    lit "    IMPORTANT: Include the following navigation elements:";
    lit "    - A navigation bar with links to: /about, /products, /blog, /contact";
    lit "    - A " ++ dq ++ lit "Change System Prompt" ++ dq ++ lit " button that links to /change-prompt";
    lit "    - At least 3 clickable buttons that lead to different pages (be creative with the links)";
    lit "    - Make sure all buttons and links are properly styled with Tailwind CSS";
    lit "    - Include hover effects on all interactive elements";
    lit "    ";
    lit "    The page should feel like a real website with functional navigation."
  ].

Definition catch_all (path : str) : M Response :=
  let page_name := page_name_of path in
  let prompt := page_prompt_of page_name in
  print (lit "Generating page for path: /" ++ path) ;;;
  print (lit "Generated prompt: " ++ prompt) ;;;
  html_content <- generate_html_with_llm prompt ;;
  ret (Response_ html_content (lit "text/html")).
End App.

End Mercury.

(** ** The three applications side by side *)

Inductive Variant : Type := app_gemini | app_groq | app_mercury.

(** What an application is linked against: the provider SDK call (A, B),
    the HTTP client and the credential (C), and [str.upper] (B). *)
Record Deps : Type := {
  sdk : Call -> PyResult str;
  http : Call -> PyResult HttpResponse;
  api_key : str;
  upper : str -> str
}.

Definition sanitize (v : Variant) : str -> PyResult str :=
  match v with
  | app_gemini => Gemini.sanitize
  | app_groq => Groq.sanitize
  | app_mercury => Mercury.sanitize
  end.

Definition initial_system_prompt (v : Variant) : str :=
  match v with
  | app_gemini => Gemini.initial_system_prompt
  | app_groq => Groq.initial_system_prompt
  | app_mercury => Mercury.initial_system_prompt
  end.

Definition startup (v : Variant) : option str -> Startup :=
  match v with
  | app_gemini => Gemini.startup
  | app_groq => Groq.startup
  | app_mercury => Mercury.startup
  end.

Definition page_prompt_of (v : Variant) (d : Deps) : str -> str :=
  match v with
  | app_gemini => Gemini.page_prompt_of
  | app_groq => Groq.page_prompt_of (upper d)
  | app_mercury => Mercury.page_prompt_of
  end.

Definition generate_html_with_llm (v : Variant) (d : Deps) : str -> M str :=
  match v with
  | app_gemini => Gemini.generate_html_with_llm (sdk d)
  | app_groq => Groq.generate_html_with_llm (sdk d)
  | app_mercury => Mercury.generate_html_with_llm (api_key d) (http d)
  end.

Definition catch_all (v : Variant) (d : Deps) : str -> M Response :=
  match v with
  | app_gemini => Gemini.catch_all (sdk d)
  | app_groq => Groq.catch_all (sdk d) (upper d)
  | app_mercury => Mercury.catch_all (api_key d) (http d)
  end.

(** A request as a route receives it. *)
Inductive Request : Type :=
| ChangePrompt (method : str) (new_prompt : option str)
| Page (path : str).

Definition handle (v : Variant) (d : Deps) (r : Request) : M Response :=
  match r with
  | ChangePrompt method new_prompt =>
      body <- change_prompt method new_prompt ;; ret (make_response body)
  | Page path => catch_all v d path
  end.

(** The world after a sequence of requests, each served against what
    the provider answers at that time. *)
Fixpoint run (v : Variant) (rs : list (Deps * Request)) (w : World) : World :=
  match rs with
  | [] => w
  | (d, r) :: rs' => run v rs' (snd (handle v d r w))
  end.

(** ** Notions used to state the properties *)

(** The text of [s] from the first occurrence of [marker] on. *)
Definition from_first (marker s : str) : str :=
  match find marker s with
  | Some i => skipn i s
  | None => s
  end.

(** What steps 1 and 2 of the sanitizer leave of a raw answer. *)
Definition cleaned (raw : str) : str := remove_fences (strip raw).

(** [s] carries no whitespace at either end. *)
Definition stripped (s : str) : Prop := lstrip s = s /\ rstrip s = s.

(** The topic phrase as the specification words it: the literal
    [home] for the empty path, otherwise the path with every slash and
    every underscore turned into a space. *)
Definition topic_phrase_spec (path : str) : str :=
  match path with
  | [] => lit "home"
  | _ :: _ =>
      map (fun c => if (N.eqb c 47 || N.eqb c 95)%bool then 32%N else c) path
  end.

(** Step 3 of the sanitizer on an already cleaned text. *)
Definition to_document (c : str) : str :=
  if contains DOCTYPE c then from_first DOCTYPE c
  else if contains HTML_TAG c then from_first HTML_TAG c
  else c.

(** The sanitizer applied to its own output. *)
Definition sanitize_twice (v : Variant) (raw : str) : PyResult str :=
  pbind (sanitize v raw) (sanitize v).

(** Sample model answers. *)
Definition chatty_answer : str := lit "blah blah <!DOCTYPE html><html></html>".
Definition bare_document : str := lit "<!DOCTYPE html><html></html>".
Definition fenced_answer : str :=
  lit "```html" ++ nl ++ lit "<!DOCTYPE html><html></html>" ++ nl ++ lit "```".
Definition fenced_fragment : str :=
  lit "```html" ++ nl ++ lit "<p>hi</p>" ++ nl ++ lit "```".

(** [x in s], as a proposition. *)
Definition occurs_in (x s : str) : Prop := exists a b, s = a ++ x ++ b.

(** The call an application sends for a page prompt under a given
    system prompt. *)
Definition outbound_call (v : Variant) (d : Deps)
    (system_prompt page_prompt : str) : Call :=
  match v with
  | app_gemini =>
      GenerateContent (lit "gemini-2.5-pro")
        (Gemini.clean_prompt_of (Gemini.full_prompt_of system_prompt page_prompt))
        64 4000
  | app_groq =>
      ChatCompletion (lit "qwen2.5-72b-instruct")
        [(lit "system", Groq.system_message);
         (lit "user", Groq.full_prompt_of system_prompt page_prompt)]
        4000
  | app_mercury =>
      HttpPost (lit "https://api.inceptionlabs.ai/v1/chat/completions")
        [(lit "Content-Type", lit "application/json");
         (lit "Authorization", lit "Bearer " ++ api_key d)]
        (lit "mercury-coder")
        [(lit "user", Mercury.full_prompt_of system_prompt page_prompt)]
        2000
  end.

(** The content of the user message of a call. *)
Definition user_prompt (c : Call) : str :=
  match c with
  | GenerateContent _ prompt _ _ => prompt
  | ChatCompletion _ messages _
  | HttpPost _ _ _ messages _ =>
      match List.find (fun m => str_eqb (fst m) (lit "user")) messages with
      | Some m => snd m
      | None => []
      end
  end.

(** The ways the adapter call fails: an exception with its message, or
    (variant C) an answer whose status is not 200. *)
Inductive Failure : Type :=
| Raised (e : str)
| BadStatus (code : Z).

(** What the provider does with a call, as the adapter sees it: a
    failure or the text to sanitize. *)
Definition upstream_outcome (v : Variant) (d : Deps) (c : Call) : Failure + str :=
  match v with
  | app_gemini | app_groq =>
      match sdk d c with
      | Raise e => inl (Raised e)
      | Return t => inr t
      end
  | app_mercury =>
      match http d c with
      | Raise e => inl (Raised e)
      | Return r =>
          if Z.eqb (status_code r) 200 then
            match json_content r with
            | Raise e => inl (Raised e)
            | Return t => inr t
            end
          else inl (BadStatus (status_code r))
      end
  end.

(** The failures of the adapter call in the words of the error
    handling design: the call raises, the answer of variant C has a
    status other than 200, or its body cannot be decoded. *)
Inductive adapter_fails (v : Variant) (d : Deps) (c : Call) : Failure -> Prop :=
| sdk_raises (e : str) :
    v <> app_mercury -> sdk d c = Raise e -> adapter_fails v d c (Raised e)
| post_raises (e : str) :
    v = app_mercury -> http d c = Raise e -> adapter_fails v d c (Raised e)
| status_not_200 (r : HttpResponse) :
    v = app_mercury -> http d c = Return r -> status_code r <> 200%Z ->
    adapter_fails v d c (BadStatus (status_code r))
| body_malformed (r : HttpResponse) (e : str) :
    v = app_mercury -> http d c = Return r -> status_code r = 200%Z ->
    json_content r = Raise e -> adapter_fails v d c (Raised e).

Definition provider_name (v : Variant) : str :=
  match v with
  | app_gemini => lit "Google Gemini"
  | app_groq => lit "Groq"
  | app_mercury => lit "Inception Labs"
  end.

Definition failure_detail (f : Failure) : str :=
  match f with
  | Raised e => e
  | BadStatus code => str_of_int code
  end.

(** The HTML fragment shown for a failure: a heading and the detail. *)
Definition error_fragment (v : Variant) (f : Failure) : str :=
  match f with
  | Raised e =>
      lit "<h1>Error: Could not connect to the " ++ provider_name v
      ++ lit " API</h1><p>" ++ e ++ lit "</p>"
  | BadStatus code =>
      lit "<h1>Error: API request failed</h1><p>Status code: "
      ++ str_of_int code ++ lit "</p>"
  end.

(** The text in front of the system prompt in the user message. *)
Definition preamble (v : Variant) : str :=
  match v with
  | app_gemini => Gemini.clean_prompt_of []
  | app_groq | app_mercury => []
  end.

(** The environment values under which an application counts its
    credential as not set: the variable is missing, or it holds the
    literal the application compares it with. *)
Definition placeholder (v : Variant) : str :=
  match v with
  | app_gemini => lit "your-fallback-api-key-here"
  | app_groq | app_mercury => []
  end.

(** Sample surroundings: a provider that is down, and one that
    answers with a fenced document. *)
Definition provider_down : Deps :=
  {| sdk := fun _ => Raise (lit "connection refused");
     http := fun _ => Return {| status_code := 503;
                                text := lit "busy";
                                json_content := Raise (lit "no body") |};
     api_key := lit "sk-test";
     upper := fun s => s |}.

Definition provider_up : Deps :=
  {| sdk := fun _ => Return fenced_answer;
     http := fun _ => Return {| status_code := 200;
                                text := [];
                                json_content := Return fenced_answer |};
     api_key := lit "sk-test";
     upper := fun s => s |}.

(** A world that holds the initial prompt and nothing else. *)
Definition initial_world (v : Variant) : World :=
  {| current_system_prompt := initial_system_prompt v;
     upstream_calls := [];
     stdout := [] |}.

(** ** Notions used for further properties of the code *)

(** [t] is [s] with some characters left out, the others in order. *)
Inductive Subseq : str -> str -> Prop :=
| subseq_nil : Subseq [] []
| subseq_keep (c : char) (t s : str) : Subseq t s -> Subseq (c :: t) (c :: s)
| subseq_drop (c : char) (t s : str) : Subseq t s -> Subseq t (c :: s).

(** Every character of [ws] is whitespace. *)
Definition all_space (ws : str) : bool := forallb is_space ws.

(** A document as models usually hand it over: inside an [html] fence,
    on lines of its own. *)
Definition wrap_in_fences (document : str) : str :=
  lit "```html" ++ nl ++ document ++ nl ++ lit "```".

(** The prompt a sequence of requests leaves behind, read off the
    requests alone: the last non-empty [new_prompt] that was posted, or
    [current] when there is none. *)
Fixpoint last_posted (rs : list (Deps * Request)) (current : str) : str :=
  match rs with
  | [] => current
  | (_, ChangePrompt method (Some p)) :: rs' =>
      if str_eqb method (lit "POST") && truthy p
      then last_posted rs' p
      else last_posted rs' current
  | _ :: rs' => last_posted rs' current
  end.

(** The number of catch-all requests in a sequence. *)
Fixpoint page_requests (rs : list (Deps * Request)) : nat :=
  match rs with
  | [] => 0
  | (_, Page _) :: rs' => S (page_requests rs')
  | _ :: rs' => page_requests rs'
  end.

(** What the startup messages show of a key. *)
Definition key_digest (key : str) : str :=
  slice_to 10 key ++ lit "..." ++ slice_last 4 key.

(** The provider answers the call with the text [t]. *)
Definition adapter_answers (v : Variant) (d : Deps) (c : Call) (t : str) : Prop :=
  match v with
  | app_gemini | app_groq => sdk d c = Return t
  | app_mercury =>
      exists r, http d c = Return r /\ status_code r = 200%Z
                /\ json_content r = Return t
  end.

(** The code points [Response] cannot encode as UTF-8: the surrogates.
    [Response(body, ...)] encodes its body when it is built, outside
    the [try] of the handlers, and raises [UnicodeEncodeError] on a
    body that holds one; [Response_] describes it on the other
    bodies. *)
Definition is_surrogate (c : char) : bool :=
  ((55296 <=? c) && (c <=? 57343))%N.

Definition utf8_encodable (s : str) : bool :=
  forallb (fun c => negb (is_surrogate c)) s.

(** Every request of a sequence is a GET to the prompt editor. *)
Definition editor_gets (rs : list (Deps * Request)) : Prop :=
  Forall (fun x => exists np, snd x = ChangePrompt (lit "GET") np) rs.

(** * Properties *)

(** ** Facts about the string operations *)

Lemma str_eqb_eq (s t : str) : str_eqb s t = true <-> s = t.
Proof.
  revert t; induction s as [|a s IH]; intros [|b t]; simpl; split;
    try congruence; try reflexivity.
  - intros H. apply andb_true_iff in H as [H1 H2].
    apply N.eqb_eq in H1. apply IH in H2. congruence.
  - intros H. injection H as -> ->. rewrite N.eqb_refl. simpl.
    now apply IH.
Qed.

Lemma starts_with_app (p t : str) : starts_with p (p ++ t) = true.
Proof.
  induction p as [|a p IH]; simpl; [reflexivity|].
  now rewrite N.eqb_refl, IH.
Qed.

Lemma starts_with_inv (p s : str) :
  starts_with p s = true -> exists t, s = p ++ t.
Proof.
  revert s; induction p as [|a p IH]; intros s H.
  - now exists s.
  - destruct s as [|b s]; simpl in H; [discriminate|].
    apply andb_true_iff in H as [H1 H2].
    apply N.eqb_eq in H1. destruct (IH _ H2) as [t ->].
    exists t. now subst.
Qed.

Lemma starts_with_iff (p s : str) :
  starts_with p s = true <-> exists t, s = p ++ t.
Proof.
  split; [apply starts_with_inv|]. intros [t ->]. apply starts_with_app.
Qed.

Lemma starts_with_skipn (p s : str) :
  starts_with p s = true -> s = p ++ skipn (length p) s.
Proof.
  intros H. destruct (starts_with_inv _ _ H) as [t ->].
  now rewrite skipn_app, skipn_all, Nat.sub_diag.
Qed.

(** [find] returns the position of the first occurrence. *)
Lemma find_some (m s : str) (i : nat) :
  find m s = Some i ->
  s = firstn i s ++ m ++ skipn (i + length m) s /\
  length (firstn i s) = i /\
  forall a b, s = a ++ m ++ b -> i <= length a.
Proof.
  revert i; induction s as [|c s IH]; intros i H.
  - simpl in H. destruct (starts_with m []) eqn:E; [|discriminate].
    injection H as <-. destruct m; [|discriminate]. simpl.
    repeat split; lia.
  - cbn [find] in H. destruct (starts_with m (c :: s)) eqn:E.
    + injection H as <-. cbn [firstn app Nat.add].
      repeat split; [now apply starts_with_skipn | lia].
    + destruct (find m s) as [j|] eqn:F; [|discriminate].
      injection H as <-. destruct (IH j eq_refl) as (H1 & H2 & H3).
      cbn [firstn skipn Nat.add app length]. repeat split.
      * now rewrite <- H1.
      * now rewrite H2.
      * intros [|a0 a] b Hs.
        -- simpl in Hs. rewrite Hs, starts_with_app in E. discriminate.
        -- injection Hs as _ Hs. simpl. apply H3 in Hs. lia.
Qed.

Lemma find_none (m s : str) :
  find m s = None -> forall a b, s <> a ++ m ++ b.
Proof.
  induction s as [|c s IH]; intros H a b Hs.
  - simpl in H. destruct (starts_with m []) eqn:E; [discriminate|].
    destruct a; [|discriminate]. destruct m; discriminate.
  - cbn [find] in H. destruct (starts_with m (c :: s)) eqn:E; [discriminate|].
    destruct (find m s) eqn:F; [discriminate|].
    destruct a as [|a0 a].
    + simpl in Hs. rewrite Hs, starts_with_app in E. discriminate.
    + injection Hs as _ Hs. now apply (IH eq_refl a b).
Qed.

Lemma contains_iff (m s : str) :
  contains m s = true <-> exists a b, s = a ++ m ++ b.
Proof.
  unfold contains. destruct (find m s) as [i|] eqn:F; split; try reflexivity.
  - intros _. apply find_some in F as (H & _). eauto.
  - discriminate.
  - intros (a & b & H). now apply (find_none _ _ F) in H.
Qed.

Lemma contains_false_iff (m s : str) :
  contains m s = false <-> forall a b, s <> a ++ m ++ b.
Proof.
  split.
  - intros H a b Hs.
    assert (contains m s = true) by (apply contains_iff; eauto). congruence.
  - intros H. destruct (contains m s) eqn:E; [|reflexivity].
    apply contains_iff in E as (a & b & E). now apply H in E.
Qed.

(** A text inside a text without [m] is without [m]. *)
Lemma contains_false_infix (m s a b : str) :
  contains m (a ++ s ++ b) = false -> contains m s = false.
Proof.
  intros H. apply contains_false_iff. intros a' b' ->.
  apply contains_false_iff with (a := a ++ a') (b := b' ++ b) in H.
  apply H. now rewrite <- !app_assoc.
Qed.

Lemma contains_false_longer (m n s : str) :
  contains m s = false -> contains (m ++ n) s = false.
Proof.
  intros H. apply contains_false_iff. intros a b ->.
  apply contains_false_iff with (a := a) (b := n ++ b) in H.
  apply H. now rewrite <- !app_assoc.
Qed.

Lemma contains_cons (m : str) (c : char) (s : str) :
  contains m (c :: s) = starts_with m (c :: s) || contains m s.
Proof.
  unfold contains. cbn [find].
  destruct (starts_with m (c :: s)); [reflexivity|].
  now destruct (find m s).
Qed.

(** *** [replace] *)

Lemma replace_from_skip (old new : str) (k : nat) (s : str) :
  replace_from old new k s = replace old new (skipn k s).
Proof.
  unfold replace. revert k; induction s as [|c s IH]; intros k.
  - now rewrite skipn_nil.
  - destruct k as [|k]; [reflexivity|]. cbn [replace_from skipn]. apply IH.
Qed.

Lemma replace_nil (old new : str) : replace old new [] = [].
Proof. reflexivity. Qed.

Lemma replace_hit (old new : str) (c : char) (s : str) :
  old <> [] ->
  starts_with old (c :: s) = true ->
  replace old new (c :: s) = new ++ replace old new (skipn (length old) (c :: s)).
Proof.
  intros Hold H. unfold replace at 1. cbn [replace_from]. rewrite H.
  rewrite replace_from_skip. destruct old as [|o old]; [congruence|].
  cbn [length]. replace (S (length old) - 1) with (length old) by lia.
  reflexivity.
Qed.

Lemma replace_miss (old new : str) (c : char) (s : str) :
  starts_with old (c :: s) = false ->
  replace old new (c :: s) = c :: replace old new s.
Proof.
  intros H. unfold replace. cbn [replace_from]. now rewrite H.
Qed.

(** Without an occurrence of [old] nothing is replaced. *)
Lemma replace_absent (old new s : str) :
  contains old s = false -> replace old new s = s.
Proof.
  induction s as [|c s IH]; intros H; [reflexivity|].
  rewrite contains_cons in H. apply orb_false_iff in H as [H1 H2].
  rewrite replace_miss by assumption. now rewrite IH.
Qed.

(** Replacing one character by one character is a character map. *)
Lemma replace_char (a b : char) (s : str) :
  replace [a] [b] s = map (fun c => if N.eqb c a then b else c) s.
Proof.
  induction s as [|c s IH]; [reflexivity|].
  cbn [map]. destruct (N.eqb c a) eqn:E.
  - apply N.eqb_eq in E. subst c.
    rewrite replace_hit; [|discriminate|].
    + cbn [length skipn app]. now rewrite IH.
    + simpl. now rewrite N.eqb_refl.
  - rewrite replace_miss; [now rewrite IH|].
    simpl. rewrite N.eqb_sym, E. reflexivity.
Qed.

(** *** Fence removal *)

Lemma fence_eq : fence = [96; 96; 96]%N.
Proof. reflexivity. Qed.

Lemma fence_html_eq : fence_html = fence ++ lit "html".
Proof. reflexivity. Qed.

Lemma starts_with_fence (s : str) :
  starts_with fence s = true -> exists t, s = 96%N :: 96%N :: 96%N :: t.
Proof. rewrite fence_eq. intros H. now apply starts_with_inv in H. Qed.

Lemma replace_fence_head (n : nat) (s : str) :
  length s <= n -> starts_with fence (replace fence [] s) = false.
Proof.
  revert s; induction n as [|n IH]; intros s Hn.
  - destruct s; [reflexivity | simpl in Hn; lia].
  - destruct s as [|c1 s]; [reflexivity|].
    destruct (starts_with fence (c1 :: s)) eqn:E.
    + rewrite replace_hit by (assumption || discriminate).
      destruct (starts_with_fence _ E) as [t Ht]. rewrite Ht.
      cbn [app fence length lit map list_ascii_of_string skipn].
      apply IH. rewrite Ht in Hn. simpl in Hn. lia.
    + rewrite replace_miss by assumption.
      destruct (N.eqb 96 c1) eqn:E1;
        [|rewrite fence_eq; cbn [starts_with]; now rewrite E1].
      apply N.eqb_eq in E1. subst c1.
      destruct s as [|c2 s]; [reflexivity|].
      destruct (starts_with fence (c2 :: s)) eqn:F.
      * destruct (starts_with_fence _ F) as [t Ht].
        rewrite Ht, fence_eq in E. discriminate.
      * rewrite replace_miss by assumption.
        destruct (N.eqb 96 c2) eqn:E2;
          [|rewrite fence_eq; cbn [starts_with]; now rewrite N.eqb_refl, E2].
        apply N.eqb_eq in E2. subst c2.
        destruct s as [|c3 s]; [reflexivity|].
        destruct (N.eqb 96 c3) eqn:E3.
        -- rewrite fence_eq in E. cbn [starts_with] in E.
           rewrite E3 in E. discriminate.
        -- rewrite replace_miss;
             [|rewrite fence_eq; cbn [starts_with]; now rewrite E3].
           rewrite fence_eq. cbn [starts_with].
           now rewrite !N.eqb_refl, E3.
Qed.

Lemma replace_fence_clean_le (n : nat) (s : str) :
  length s <= n -> contains fence (replace fence [] s) = false.
Proof.
  revert s; induction n as [|n IH]; intros s Hn.
  - destruct s; [reflexivity | simpl in Hn; lia].
  - destruct s as [|c s]; [reflexivity|].
    destruct (starts_with fence (c :: s)) eqn:E.
    + rewrite replace_hit by (assumption || discriminate).
      destruct (starts_with_fence _ E) as [t Ht]. rewrite Ht.
      cbn [app fence length lit map list_ascii_of_string skipn].
      apply IH. rewrite Ht in Hn. simpl in Hn. lia.
    + pose proof (replace_fence_head (S n) (c :: s) Hn) as Hh.
      rewrite replace_miss in * by assumption.
      rewrite contains_cons, Hh. simpl. apply IH. simpl in Hn. lia.
Qed.

(** After [replace('```', '')] no triple backtick is left, whatever the
    text was. *)
Lemma replace_fence_clean (s : str) :
  contains fence (replace fence [] s) = false.
Proof. now apply (replace_fence_clean_le (length s)). Qed.

Lemma remove_fences_clean (s : str) : contains fence (remove_fences s) = false.
Proof. apply replace_fence_clean. Qed.

(** A text without a triple backtick passes fence removal unchanged. *)
Lemma remove_fences_absent (s : str) :
  contains fence s = false -> remove_fences s = s.
Proof.
  intros H. unfold remove_fences.
  rewrite (replace_absent fence_html).
  - now apply replace_absent.
  - rewrite fence_html_eq. now apply contains_false_longer.
Qed.

(** *** [strip] *)

Lemma lstrip_suffix (s : str) : exists w, s = w ++ lstrip s.
Proof.
  induction s as [|c s [w IH]]; [now exists []|].
  simpl. destruct (is_space c).
  - exists (c :: w). simpl. now rewrite <- IH.
  - now exists [].
Qed.

Lemma rstrip_prefix (s : str) : exists w, s = rstrip s ++ w.
Proof.
  unfold rstrip. destruct (lstrip_suffix (rev s)) as [w H].
  exists (rev w). rewrite <- rev_app_distr, <- H. now rewrite rev_involutive.
Qed.

Lemma strip_infix (s : str) : exists a b, s = a ++ strip s ++ b.
Proof.
  unfold strip. destruct (lstrip_suffix s) as [a Ha].
  destruct (rstrip_prefix (lstrip s)) as [b Hb].
  exists a, b. now rewrite <- Hb.
Qed.

Lemma contains_false_strip (m s : str) :
  contains m s = false -> contains m (strip s) = false.
Proof.
  intros H. destruct (strip_infix s) as (a & b & E).
  rewrite E in H. now apply contains_false_infix in H.
Qed.

Lemma lstrip_head (s : str) (c : char) (t : str) :
  lstrip s = c :: t -> is_space c = false.
Proof.
  induction s as [|d s IH]; simpl; [discriminate|].
  destruct (is_space d) eqn:E; [assumption|]. congruence.
Qed.

Lemma lstrip_idem (s : str) : lstrip (lstrip s) = lstrip s.
Proof.
  induction s as [|c s IH]; [reflexivity|].
  simpl. destruct (is_space c) eqn:E; [assumption|]. simpl. now rewrite E.
Qed.

Lemma rstrip_idem (s : str) : rstrip (rstrip s) = rstrip s.
Proof. unfold rstrip. now rewrite rev_involutive, lstrip_idem. Qed.

Lemma lstrip_app_solid (a : str) (c : char) (b : str) :
  is_space c = false -> lstrip (a ++ c :: b) = lstrip a ++ c :: b.
Proof.
  intros Hc. induction a as [|d a IH]; simpl.
  - now rewrite Hc.
  - destruct (is_space d); [assumption | reflexivity].
Qed.

(** Whitespace is only removed behind the last solid character. *)
Lemma rstrip_app_solid (a : str) (c : char) (t : str) :
  is_space c = false -> rstrip (a ++ c :: t) = a ++ c :: rstrip t.
Proof.
  intros Hc. unfold rstrip.
  rewrite rev_app_distr. cbn [rev]. rewrite <- app_assoc. cbn [app].
  rewrite lstrip_app_solid by assumption.
  rewrite rev_app_distr. cbn [rev]. rewrite rev_involutive.
  now rewrite <- app_assoc.
Qed.

Lemma rstrip_cons_solid (c : char) (t : str) :
  is_space c = false -> rstrip (c :: t) = c :: rstrip t.
Proof. apply (rstrip_app_solid []). Qed.

Lemma strip_stripped (s : str) : stripped (strip s).
Proof.
  unfold stripped, strip. split; [|apply rstrip_idem].
  destruct (lstrip s) as [|c t] eqn:E; [reflexivity|].
  apply lstrip_head in E.
  rewrite (rstrip_cons_solid c t E). simpl. now rewrite E.
Qed.

Lemma stripped_strip (s : str) : stripped s -> strip s = s.
Proof. intros [H1 H2]. unfold strip. now rewrite H1. Qed.

Lemma strip_idem (s : str) : strip (strip s) = strip s.
Proof. apply stripped_strip, strip_stripped. Qed.

(** A text that begins with a solid character and ends a stripped text
    is stripped. *)
Lemma stripped_tail (a : str) (c : char) (t : str) :
  is_space c = false -> stripped (a ++ c :: t) -> stripped (c :: t).
Proof.
  intros Hc [_ H]. split; [simpl; now rewrite Hc|].
  rewrite rstrip_app_solid in H by assumption.
  apply app_inv_head in H. injection H as H.
  rewrite (rstrip_cons_solid c t Hc). now rewrite H.
Qed.

(** Stripping a text that begins with a solid character keeps its
    beginning up to any later solid character. *)
Lemma strip_solid_prefix (a : str) (c d : char) (t : str) :
  is_space c = false -> is_space d = false ->
  strip (c :: a ++ d :: t) = c :: a ++ d :: rstrip t.
Proof.
  intros Hc Hd. unfold strip. cbn [lstrip]. rewrite Hc.
  apply (rstrip_app_solid (c :: a) d t Hd).
Qed.

(** *** The prefix trim *)

Lemma from_first_found (m s : str) :
  contains m s = true ->
  exists before rest,
    s = before ++ m ++ rest /\
    from_first m s = m ++ rest /\
    index (split_max1 m s) 1 = Return rest /\
    forall a b, s = a ++ m ++ b -> length before <= length a.
Proof.
  unfold contains, from_first, split_max1.
  destruct (find m s) as [i|] eqn:F; [intros _ | discriminate].
  destruct (find_some _ _ _ F) as (H1 & H2 & H3).
  exists (firstn i s), (skipn (i + length m) s).
  repeat split; try assumption.
  - rewrite H1 at 1. rewrite skipn_app, H2, Nat.sub_diag.
    rewrite skipn_all2 by lia. reflexivity.
  - intros a b Hs. rewrite H2. now apply (H3 a b).
Qed.

Lemma from_first_suffix (m s : str) : exists a, s = a ++ from_first m s.
Proof.
  unfold from_first. destruct (find m s) as [i|].
  - exists (firstn i s). now rewrite firstn_skipn.
  - now exists [].
Qed.

Lemma from_first_at_start (m s : str) :
  starts_with m s = true -> contains m s = true /\ from_first m s = s.
Proof.
  intros H. unfold contains, from_first.
  assert (F : find m s = Some 0) by (destruct s; simpl; now rewrite H).
  now rewrite F.
Qed.

Lemma to_document_suffix (c : str) : exists a, c = a ++ to_document c.
Proof.
  unfold to_document.
  destruct (contains DOCTYPE c); [apply from_first_suffix|].
  destruct (contains HTML_TAG c); [apply from_first_suffix|].
  now exists [].
Qed.

(** *** The sanitizers as functions of the cleaned text *)

Lemma trim_step (m s : str) :
  contains m s = true ->
  pbind (index (split_max1 m s) 1) (fun rest => Return (m ++ rest))
  = Return (from_first m s).
Proof.
  intros H. destruct (from_first_found _ _ H) as (b & r & _ & H2 & H3 & _).
  now rewrite H3, H2.
Qed.

Lemma gemini_sanitize_eq (raw : str) :
  Gemini.sanitize raw = Return (to_document (cleaned raw)).
Proof.
  unfold Gemini.sanitize, to_document. fold (cleaned raw).
  destruct (contains DOCTYPE (cleaned raw)) eqn:D; [now apply trim_step|].
  destruct (contains HTML_TAG (cleaned raw)) eqn:H; [now apply trim_step|].
  reflexivity.
Qed.

Lemma groq_sanitize_eq (raw : str) :
  Groq.sanitize raw = Return (to_document (cleaned raw)).
Proof. exact (gemini_sanitize_eq raw). Qed.

Lemma mercury_sanitize_eq (raw : str) :
  Mercury.sanitize raw = Return (cleaned raw).
Proof. reflexivity. Qed.

(** Every sanitizer returns, and what it returns ends the cleaned text. *)
Lemma sanitize_returns (v : Variant) (raw : str) :
  exists out a, sanitize v raw = Return out /\ cleaned raw = a ++ out.
Proof.
  destruct v; simpl.
  - destruct (to_document_suffix (cleaned raw)) as [a Ha].
    exists (to_document (cleaned raw)), a. now rewrite gemini_sanitize_eq.
  - destruct (to_document_suffix (cleaned raw)) as [a Ha].
    exists (to_document (cleaned raw)), a. now rewrite groq_sanitize_eq.
  - now exists (cleaned raw), [].
Qed.

Lemma sanitize_fence_free (v : Variant) (raw out : str) :
  sanitize v raw = Return out -> contains fence out = false.
Proof.
  intros H. destruct (sanitize_returns v raw) as (o & a & Ho & Ha).
  rewrite Ho in H. injection H as <-.
  pose proof (remove_fences_clean (strip raw)) as Hc. fold (cleaned raw) in Hc.
  rewrite Ha in Hc. apply (contains_false_infix fence o a []).
  now rewrite app_nil_r.
Qed.

(** *** A second pass over sanitized text *)

Lemma strip_marker (c : char) (a : str) (d : char) (rest : str) :
  is_space c = false -> is_space d = false ->
  strip ((c :: a ++ [d]) ++ rest) = (c :: a ++ [d]) ++ rstrip rest.
Proof.
  intros Hc Hd. rewrite <- !app_comm_cons, <- !app_assoc. cbn [app].
  now apply strip_solid_prefix.
Qed.

Lemma DOCTYPE_shape : DOCTYPE = 60%N :: lit "!DOCTYPE html" ++ [62%N].
Proof. reflexivity. Qed.

Lemma HTML_TAG_shape : HTML_TAG = 60%N :: lit "htm" ++ [108%N].
Proof. reflexivity. Qed.

Lemma strip_DOCTYPE (rest : str) :
  strip (DOCTYPE ++ rest) = DOCTYPE ++ rstrip rest.
Proof. rewrite DOCTYPE_shape. now apply strip_marker. Qed.

Lemma strip_HTML_TAG (rest : str) :
  strip (HTML_TAG ++ rest) = HTML_TAG ++ rstrip rest.
Proof. rewrite HTML_TAG_shape. now apply strip_marker. Qed.

Lemma cleaned_fence_free (s : str) :
  contains fence s = false -> cleaned s = strip s.
Proof.
  intros H. unfold cleaned. now apply remove_fences_absent, contains_false_strip.
Qed.

(** Text that [to_document] produced is, once stripped, left alone by
    [to_document]. *)
Lemma to_document_strip (c : str) :
  to_document (strip (to_document c)) = strip (to_document c).
Proof.
  unfold to_document at 2 3.
  destruct (contains DOCTYPE c) eqn:D.
  - destruct (from_first_found _ _ D) as (b & r & _ & -> & _).
    rewrite strip_DOCTYPE. unfold to_document.
    destruct (from_first_at_start DOCTYPE (DOCTYPE ++ rstrip r)
                (starts_with_app _ _)) as [-> ->].
    reflexivity.
  - assert (D' : forall t a, c = a ++ t -> contains DOCTYPE (strip t) = false).
    { intros t a E. apply contains_false_strip.
      apply (contains_false_infix DOCTYPE t a []).
      now rewrite app_nil_r, <- E. }
    destruct (contains HTML_TAG c) eqn:H.
    + destruct (from_first_found _ _ H) as (b & r & E & F & _).
      unfold to_document. rewrite (D' (from_first HTML_TAG c) b)
        by (rewrite F; exact E).
      rewrite F, strip_HTML_TAG.
      destruct (from_first_at_start HTML_TAG (HTML_TAG ++ rstrip r)
                  (starts_with_app _ _)) as [-> ->].
      reflexivity.
    + unfold to_document. rewrite (D' c []) by reflexivity.
      now rewrite (contains_false_strip _ _ H).
Qed.

Lemma to_document_stripped (c : str) : stripped c -> stripped (to_document c).
Proof.
  intros Hc. unfold to_document.
  destruct (contains DOCTYPE c) eqn:D.
  - destruct (from_first_found _ _ D) as (b & r & E & -> & _).
    rewrite E in Hc. apply (stripped_tail b); [reflexivity | exact Hc].
  - destruct (contains HTML_TAG c) eqn:H; [|assumption].
    destruct (from_first_found _ _ H) as (b & r & E & -> & _).
    rewrite E in Hc. apply (stripped_tail b); [reflexivity | exact Hc].
Qed.

(** The second pass only strips. *)
Lemma sanitize_again (v : Variant) (raw out : str) :
  sanitize v raw = Return out -> sanitize v out = Return (strip out).
Proof.
  intros H. pose proof (sanitize_fence_free v raw out H) as Hf.
  pose proof (cleaned_fence_free out Hf) as Hc.
  destruct v; simpl in *.
  - rewrite gemini_sanitize_eq in *. injection H as <-.
    now rewrite Hc, to_document_strip.
  - rewrite groq_sanitize_eq in *. injection H as <-.
    now rewrite Hc, to_document_strip.
  - rewrite mercury_sanitize_eq in *. now rewrite Hc.
Qed.

(** A raw text without fence markers is sanitized to a stripped text. *)
Lemma sanitize_stripped (v : Variant) (raw out : str) :
  contains fence raw = false -> sanitize v raw = Return out -> stripped out.
Proof.
  intros Hf H. pose proof (cleaned_fence_free raw Hf) as Hc.
  destruct v; simpl in *.
  - rewrite gemini_sanitize_eq, Hc in H. injection H as <-.
    apply to_document_stripped, strip_stripped.
  - rewrite groq_sanitize_eq, Hc in H. injection H as <-.
    apply to_document_stripped, strip_stripped.
  - rewrite mercury_sanitize_eq, Hc in H. injection H as <-.
    apply strip_stripped.
Qed.

(** ** The Response Sanitizer *)

(** C10.  Whatever the raw model output, each of the three sanitizers
    returns a text, and that text holds no triple backtick: the second
    replacement leaves none behind and the prefix trim keeps an end of
    the text. *)
Theorem sanitizer_output_fence_free (v : Variant) (raw : str) :
  exists out, sanitize v raw = Return out /\ contains fence out = false.
Proof.
  destruct (sanitize_returns v raw) as (out & a & H & _).
  exists out. split; [assumption|]. now apply (sanitize_fence_free v raw).
Qed.

(** C1, as stated, fails for [app-mercury.py]: its sanitizer strips and
    removes fences only, so the chatty answer keeps its leading words. *)
Lemma mercury_keeps_leading_text :
  contains DOCTYPE chatty_answer = true /\
  sanitize app_mercury chatty_answer = Return chatty_answer /\
  sanitize app_mercury chatty_answer <> Return bare_document.
Proof. repeat split. vm_compute. discriminate. Qed.

(** C1 (amended).  In [app-gemini.py] and [app-groq.py] the sanitizer
    looks at the stripped, fence-free text: if it holds the DOCTYPE
    marker, the result is that text from the first occurrence of the
    marker on; else if it holds [<html], the result is the text from
    the first occurrence of [<html] on; the chatty answer becomes the
    bare document.  In [app-mercury.py] the result is the stripped,
    fence-free text itself. *)
Theorem sanitizer_prefix_trim (v : Variant) (raw : str) :
  (v <> app_mercury ->
   (contains DOCTYPE (cleaned raw) = true ->
    exists before rest,
      cleaned raw = before ++ DOCTYPE ++ rest /\
      sanitize v raw = Return (DOCTYPE ++ rest) /\
      forall a b, cleaned raw = a ++ DOCTYPE ++ b -> length before <= length a) /\
   (contains DOCTYPE (cleaned raw) = false ->
    contains HTML_TAG (cleaned raw) = true ->
    exists before rest,
      cleaned raw = before ++ HTML_TAG ++ rest /\
      sanitize v raw = Return (HTML_TAG ++ rest) /\
      forall a b, cleaned raw = a ++ HTML_TAG ++ b -> length before <= length a) /\
   sanitize v chatty_answer = Return bare_document) /\
  (v = app_mercury -> sanitize v raw = Return (cleaned raw)).
Proof.
  split.
  - intros Hv.
    assert (E : sanitize v = Gemini.sanitize)
      by (destruct v; [reflexivity | reflexivity | congruence]).
    rewrite E. repeat split.
    + intros D. destruct (from_first_found _ _ D) as (b & r & H1 & H2 & _ & H4).
      exists b, r. repeat split; try assumption.
      rewrite gemini_sanitize_eq. unfold to_document. now rewrite D, H2.
    + intros D H. destruct (from_first_found _ _ H) as (b & r & H1 & H2 & _ & H4).
      exists b, r. repeat split; try assumption.
      rewrite gemini_sanitize_eq. unfold to_document. now rewrite D, H, H2.
  - intros ->. reflexivity.
Qed.

Lemma sanitizer_prefix_trim_witness :
  app_gemini <> app_mercury /\
  contains DOCTYPE (cleaned chatty_answer) = true /\
  exists before rest,
    cleaned chatty_answer = before ++ DOCTYPE ++ rest /\
    sanitize app_gemini chatty_answer = Return (DOCTYPE ++ rest) /\
    forall a b,
      cleaned chatty_answer = a ++ DOCTYPE ++ b -> length before <= length a.
Proof.
  split; [discriminate|]. split; [reflexivity|].
  destruct (sanitizer_prefix_trim app_gemini chatty_answer) as [H _].
  destruct H as [H _]; [discriminate|]. apply H. reflexivity.
Defined.

(** C9, as stated, fails on an answer wrapped in fences: it holds
    neither marker, yet the result is not the stripped answer. *)
Lemma fenced_fragment_is_changed :
  contains DOCTYPE fenced_fragment = false /\
  contains HTML_TAG fenced_fragment = false /\
  sanitize app_gemini fenced_fragment = Return (nl ++ lit "<p>hi</p>" ++ nl) /\
  sanitize app_gemini fenced_fragment <> Return (strip fenced_fragment).
Proof. repeat split. vm_compute. discriminate. Qed.

(** C9 (amended).  When the stripped, fence-free text holds neither the
    DOCTYPE marker nor [<html], each sanitizer returns exactly that
    text; so a raw answer that holds neither marker and no triple
    backtick comes back stripped and otherwise unchanged.  The
    sanitizer returns in every case. *)
Theorem sanitizer_without_markers (v : Variant) (raw : str) :
  (exists out, sanitize v raw = Return out) /\
  (contains DOCTYPE (cleaned raw) = false ->
   contains HTML_TAG (cleaned raw) = false ->
   sanitize v raw = Return (cleaned raw)) /\
  (contains fence raw = false ->
   contains DOCTYPE raw = false ->
   contains HTML_TAG raw = false ->
   sanitize v raw = Return (strip raw)).
Proof.
  assert (G : forall r, contains DOCTYPE (cleaned r) = false ->
                        contains HTML_TAG (cleaned r) = false ->
                        sanitize v r = Return (cleaned r)).
  { intros r D H. destruct v; simpl.
    - rewrite gemini_sanitize_eq. unfold to_document. now rewrite D, H.
    - rewrite groq_sanitize_eq. unfold to_document. now rewrite D, H.
    - reflexivity. }
  split; [|split].
  - destruct (sanitize_returns v raw) as (out & _ & H & _). now exists out.
  - apply G.
  - intros F D H. rewrite <- (cleaned_fence_free raw F).
    apply G; rewrite (cleaned_fence_free raw F); now apply contains_false_strip.
Qed.

Lemma sanitizer_without_markers_witness :
  contains fence (lit "  plain text ") = false /\
  contains DOCTYPE (lit "  plain text ") = false /\
  contains HTML_TAG (lit "  plain text ") = false /\
  sanitize app_groq (lit "  plain text ") = Return (strip (lit "  plain text ")).
Proof.
  split; [reflexivity|]. split; [reflexivity|]. split; [reflexivity|].
  apply (sanitizer_without_markers app_groq (lit "  plain text ")); reflexivity.
Defined.

(** C3, as stated, fails on the usual fenced answer: the line feed in
    front of the closing fence survives the first pass and is stripped
    by the second. *)
Lemma sanitizer_not_idempotent :
  sanitize app_gemini fenced_answer = Return (bare_document ++ nl) /\
  sanitize_twice app_gemini fenced_answer = Return bare_document /\
  sanitize_twice app_gemini fenced_answer <> sanitize app_gemini fenced_answer.
Proof. repeat split. vm_compute. discriminate. Qed.

(** C3 (amended).  A second pass of a sanitizer over its own output
    strips the whitespace at both ends and does nothing else; for a raw
    answer without a triple backtick the first output is already
    stripped, so there the sanitizer is idempotent. *)
Theorem sanitizer_second_pass (v : Variant) (raw : str) :
  exists out,
    sanitize v raw = Return out /\
    sanitize_twice v raw = Return (strip out) /\
    (contains fence raw = false -> sanitize_twice v raw = sanitize v raw).
Proof.
  destruct (sanitize_returns v raw) as (out & _ & H & _).
  exists out. unfold sanitize_twice. rewrite H. cbn [pbind].
  rewrite (sanitize_again v raw out H). repeat split.
  intros F. f_equal. apply stripped_strip. now apply (sanitize_stripped v raw).
Qed.

Lemma sanitizer_second_pass_witness :
  contains fence chatty_answer = false /\
  sanitize_twice app_gemini chatty_answer = sanitize app_gemini chatty_answer.
Proof.
  split; [reflexivity|].
  destruct (sanitizer_second_pass app_gemini chatty_answer) as (out & _ & _ & H).
  apply H. reflexivity.
Defined.

(** ** The handlers *)

Ltac run_handler :=
  unfold try_except, bind, print, read_prompt, write_prompt, call, lift, ret;
  cbn [current_system_prompt upstream_calls stdout].

(** What a catch-all request does, whatever the provider answers: one
    call, a 200 HTML response, the prompt untouched. *)
Lemma catch_all_spec (v : Variant) (d : Deps) (path : str) (w : World) :
  let c := outbound_call v d (current_system_prompt w)
             (page_prompt_of v d (page_name_of path)) in
  exists body w',
    catch_all v d path w = (Return (Response_ body (lit "text/html")), w') /\
    current_system_prompt w' = current_system_prompt w /\
    upstream_calls w' = upstream_calls w ++ [c] /\
    match upstream_outcome v d c with
    | inl f => body = error_fragment v f
    | inr t => sanitize v t = Return body
    end.
Proof.
  destruct v;
    cbn [catch_all outbound_call upstream_outcome page_prompt_of sanitize].
  - unfold Gemini.catch_all, Gemini.generate_html_with_llm. run_handler.
    destruct (sdk d _) as [t|e].
    + rewrite gemini_sanitize_eq. eexists _, _. repeat split.
    + eexists _, _. repeat split.
  - unfold Groq.catch_all, Groq.generate_html_with_llm. run_handler.
    destruct (sdk d _) as [t|e].
    + rewrite groq_sanitize_eq. eexists _, _. repeat split.
    + eexists _, _. repeat split.
  - unfold Mercury.catch_all, Mercury.generate_html_with_llm. run_handler.
    destruct (http d _) as [r|e].
    + destruct (Z.eqb (status_code r) 200).
      * destruct (json_content r) as [t|e]; eexists _, _; repeat split.
      * eexists _, _; repeat split.
    + eexists _, _. repeat split.
Qed.

(** What the prompt editor does. *)
Lemma change_prompt_post_set (p : str) (w : World) :
  p <> [] ->
  change_prompt (lit "POST") (Some p) w =
  (Return prompt_updated_page,
   {| current_system_prompt := p;
      upstream_calls := upstream_calls w;
      stdout := stdout w |}).
Proof. destruct p; [congruence | reflexivity]. Qed.

Lemma change_prompt_post_ignored (np : option str) (w : World) :
  np = None \/ np = Some [] ->
  change_prompt (lit "POST") np w =
  (Return (change_prompt_form (current_system_prompt w)), w).
Proof. intros [-> | ->]; reflexivity. Qed.

Lemma change_prompt_get (np : option str) (w : World) :
  change_prompt (lit "GET") np w =
  (Return (change_prompt_form (current_system_prompt w)), w).
Proof. reflexivity. Qed.

(** No branch of the editor stores an empty prompt. *)
Lemma change_prompt_keeps_nonempty (method : str) (np : option str) (w : World) :
  current_system_prompt w <> [] ->
  current_system_prompt (snd (change_prompt method np w)) <> [].
Proof.
  intros H. unfold change_prompt.
  destruct (str_eqb method (lit "POST")); [|exact H].
  destruct np as [[|c p]|]; try exact H. cbn. discriminate.
Qed.

Lemma occurs_in_here (x t : str) : occurs_in x (x ++ t).
Proof. now exists [], t. Qed.

Lemma occurs_in_later (x s t : str) : occurs_in x t -> occurs_in x (s ++ t).
Proof.
  intros (a & b & ->). exists (s ++ a), b. now rewrite <- app_assoc.
Qed.

(** The form shows the stored prompt verbatim. *)
Lemma form_shows_prompt (p : str) : occurs_in p (change_prompt_form p).
Proof.
  unfold change_prompt_form. cbn [lines]. rewrite <- !app_assoc.
  repeat first [apply occurs_in_here | apply occurs_in_later].
Qed.

(** The form and the confirmation page differ, whatever the prompt. *)
Lemma form_is_not_confirmation (p : str) :
  change_prompt_form p <> prompt_updated_page.
Proof.
  intros H. apply (f_equal (firstn 6)) in H. cbv in H. discriminate.
Qed.

Lemma handle_keeps_nonempty (v : Variant) (d : Deps) (r : Request) (w : World) :
  current_system_prompt w <> [] ->
  current_system_prompt (snd (handle v d r w)) <> [].
Proof.
  intros H. destruct r as [method np | path]; cbn [handle].
  - pose proof (change_prompt_keeps_nonempty method np w H) as K.
    unfold bind, ret. now destruct (change_prompt method np w) as [[b|e] w'].
  - destruct (catch_all_spec v d path w) as (body & w' & E & P & _).
    rewrite E. cbn [snd]. now rewrite P.
Qed.

(** ** The Path-to-Topic Translator *)

(** C4.  The topic phrase of the empty path is [home]; the topic
    phrase of any other path is the path with each slash and each
    underscore replaced by a space and every other character kept;
    [a/b_c] gives [a b c]. *)
Theorem path_to_topic (path : str) :
  page_name_of path = topic_phrase_spec path /\
  page_name_of [] = lit "home" /\
  page_name_of (lit "a/b_c") = lit "a b c".
Proof.
  split; [|split; reflexivity].
  destruct path as [|c path]; [reflexivity|].
  unfold page_name_of, topic_phrase_spec. cbn [truthy negb].
  change (lit "/") with [47%N]. change (lit "_") with [95%N].
  change (lit " ") with [32%N].
  rewrite !replace_char, map_map. apply map_ext. intros a.
  destruct (N.eqb a 47) eqn:E1; [reflexivity|].
  destruct (N.eqb a 95); reflexivity.
Qed.

(** ** The prompt editor *)

(** C5.  A POST with a non-empty [new_prompt] stores exactly that
    text and answers with the confirmation page, and the next GET
    answers with the form showing that text; a POST whose [new_prompt]
    is absent or empty leaves the world as it was and answers as a GET
    does, with the form of the stored prompt. *)
Theorem prompt_editor_round_trip (v : Variant) (d : Deps) (w : World) (X : str) :
  (X <> [] ->
   exists w1,
     handle v d (ChangePrompt (lit "POST") (Some X)) w
     = (Return (make_response prompt_updated_page), w1) /\
     current_system_prompt w1 = X /\
     handle v d (ChangePrompt (lit "GET") None) w1
     = (Return (make_response (change_prompt_form X)), w1) /\
     occurs_in X (change_prompt_form X)) /\
  (forall np, np = None \/ np = Some [] ->
     handle v d (ChangePrompt (lit "POST") np) w
     = (Return (make_response (change_prompt_form (current_system_prompt w))), w) /\
     handle v d (ChangePrompt (lit "POST") np) w
     = handle v d (ChangePrompt (lit "GET") None) w /\
     change_prompt_form (current_system_prompt w) <> prompt_updated_page).
Proof.
  split.
  - intros HX. eexists. cbn [handle]. unfold bind at 1.
    rewrite (change_prompt_post_set X w HX). unfold ret at 1.
    split; [reflexivity|]. split; [reflexivity|].
    split; [reflexivity | apply form_shows_prompt].
  - intros np Hnp. cbn [handle]. unfold bind, ret.
    rewrite (change_prompt_post_ignored np w Hnp), change_prompt_get.
    split; [reflexivity|]. split; [reflexivity|]. apply form_is_not_confirmation.
Qed.

Lemma prompt_editor_round_trip_witness :
  lit "Be brief." <> [] /\
  exists w1,
    handle app_groq provider_up (ChangePrompt (lit "POST") (Some (lit "Be brief.")))
      (initial_world app_groq)
    = (Return (make_response prompt_updated_page), w1) /\
    current_system_prompt w1 = lit "Be brief." /\
    handle app_groq provider_up (ChangePrompt (lit "GET") None) w1
    = (Return (make_response (change_prompt_form (lit "Be brief."))), w1) /\
    occurs_in (lit "Be brief.") (change_prompt_form (lit "Be brief.")).
Proof.
  split; [discriminate|].
  apply (prompt_editor_round_trip app_groq provider_up
           (initial_world app_groq) (lit "Be brief.")).
  discriminate.
Defined.

(** ** The stored prompt *)

(** C6.  The prompt an application starts with is not empty, and no
    request, to the editor or to the catch-all route, turns a non-empty
    stored prompt into an empty one; so it is non-empty after any
    sequence of requests. *)
Theorem system_prompt_never_empty (v : Variant) :
  initial_system_prompt v <> [] /\
  (forall env w, startup v env = Serving w -> current_system_prompt w <> []) /\
  (forall d r w,
     current_system_prompt w <> [] ->
     current_system_prompt (snd (handle v d r w)) <> []) /\
  (forall rs w,
     current_system_prompt w <> [] ->
     current_system_prompt (run v rs w) <> []).
Proof.
  assert (I : initial_system_prompt v <> []) by (destruct v; discriminate).
  split; [exact I|]. split; [|split].
  - intros env w H.
    assert (E : current_system_prompt w = initial_system_prompt v).
    { destruct v; cbn [startup] in H;
        [unfold Gemini.startup in H | unfold Groq.startup in H
         | unfold Mercury.startup in H];
        cbv zeta in H;
        try (destruct (_ || _) in H; [discriminate|]);
        injection H as <-; reflexivity. }
    now rewrite E.
  - intros d r w. apply handle_keeps_nonempty.
  - intros rs. induction rs as [|[d r] rs IH]; intros w H; [exact H|].
    cbn [run]. apply IH. now apply handle_keeps_nonempty.
Qed.

Lemma system_prompt_never_empty_witness :
  current_system_prompt (initial_world app_mercury) <> [] /\
  current_system_prompt
    (run app_mercury
       [(provider_up, ChangePrompt (lit "POST") (Some []));
        (provider_down, Page (lit "about_us"));
        (provider_up, ChangePrompt (lit "POST") None)]
       (initial_world app_mercury)) <> [].
Proof.
  assert (H : current_system_prompt (initial_world app_mercury) <> [])
    by discriminate.
  split; [exact H|].
  destruct (system_prompt_never_empty app_mercury) as (_ & _ & _ & K).
  apply K. exact H.
Defined.

(** ** Failure of the provider *)

Lemma error_fragment_heading (v : Variant) (f : Failure) :
  starts_with (lit "<h1>Error: ") (error_fragment v f) = true.
Proof. destruct f, v; reflexivity. Qed.

Lemma error_fragment_detail (v : Variant) (f : Failure) :
  occurs_in (failure_detail f) (error_fragment v f).
Proof.
  destruct f as [e | code]; cbn [error_fragment failure_detail];
    repeat first [apply occurs_in_here | apply occurs_in_later].
Qed.

Lemma adapter_fails_outcome (v : Variant) (d : Deps) (c : Call) (f : Failure) :
  adapter_fails v d c f -> upstream_outcome v d c = inl f.
Proof.
  intros [e Hv H | e Hv H | r Hv H Hs | r e Hv H Hs Hj]; unfold upstream_outcome.
  - destruct v; [now rewrite H | now rewrite H | congruence].
  - subst v. now rewrite H.
  - subst v. rewrite H. apply Z.eqb_neq in Hs. now rewrite Hs.
  - subst v. rewrite H, Hs, Hj. reflexivity.
Qed.

(** C2.  When the provider call of a catch-all request fails, by an
    exception (any variant) or by a status other than 200 (variant C),
    the handler returns, without raising, a response of status 200 and
    mimetype text/html whose body is the error fragment: it begins with
    the error heading and holds the failure detail.  Exactly one call
    went out and the stored prompt is what it was. *)
Theorem adapter_failure_contained
    (v : Variant) (d : Deps) (path : str) (w : World) (f : Failure) :
  adapter_fails v d
    (outbound_call v d (current_system_prompt w)
       (page_prompt_of v d (page_name_of path))) f ->
  exists w',
    catch_all v d path w
    = (Return {| data := error_fragment v f;
                 status := 200;
                 mimetype := lit "text/html" |}, w') /\
    starts_with (lit "<h1>Error: ") (error_fragment v f) = true /\
    occurs_in (failure_detail f) (error_fragment v f) /\
    upstream_calls w'
    = upstream_calls w
      ++ [outbound_call v d (current_system_prompt w)
            (page_prompt_of v d (page_name_of path))] /\
    current_system_prompt w' = current_system_prompt w.
Proof.
  intros H. apply adapter_fails_outcome in H.
  destruct (catch_all_spec v d path w) as (body & w' & E & P & C & B).
  cbv zeta in C, B. rewrite H in B. subst body.
  exists w'. split; [exact E|]. split; [apply error_fragment_heading|].
  split; [apply error_fragment_detail|]. now split.
Qed.

Lemma adapter_failure_contained_witness :
  adapter_fails app_mercury provider_down
    (outbound_call app_mercury provider_down
       (current_system_prompt (initial_world app_mercury))
       (page_prompt_of app_mercury provider_down (page_name_of (lit "anything"))))
    (BadStatus 503) /\
  exists w',
    catch_all app_mercury provider_down (lit "anything") (initial_world app_mercury)
    = (Return {| data := lit "<h1>Error: API request failed</h1><p>Status code: 503</p>";
                 status := 200;
                 mimetype := lit "text/html" |}, w') /\
    current_system_prompt w' = current_system_prompt (initial_world app_mercury).
Proof.
  assert (H : adapter_fails app_mercury provider_down
                (outbound_call app_mercury provider_down
                   (current_system_prompt (initial_world app_mercury))
                   (page_prompt_of app_mercury provider_down
                      (page_name_of (lit "anything"))))
                (BadStatus 503)).
  { apply (status_not_200 app_mercury provider_down _
             {| status_code := 503; text := lit "busy";
                json_content := Raise (lit "no body") |});
      [reflexivity | reflexivity | discriminate]. }
  split; [exact H|].
  destruct (adapter_failure_contained app_mercury provider_down (lit "anything")
              (initial_world app_mercury) (BadStatus 503) H)
    as (w' & E & _ & _ & _ & P).
  exists w'. split; [exact E | exact P].
Defined.

(** ** Startup *)



(** With a credential that passes the check every application serves. *)
Lemma startup_with_credential (v : Variant) :
  exists w, startup v (Some (lit "sk-0123456789abcdef")) = Serving w.
Proof. destruct v; eexists; reflexivity. Qed.

(** ** The Prompt Composer *)

(** C8.  The user message of the one call a catch-all request sends is
    the variant's fixed preamble (empty for B and C), then the stored
    system prompt, then the separator literal (two line feeds,
    [---USER REQUEST---], one line feed), then the variant's page
    template for the topic phrase.  After the editor has stored a non-empty [X],
    the next catch-all request sends [X] in that place. *)
Theorem composed_prompt_carries_system_prompt
    (v : Variant) (d : Deps) (path : str) (w : World) :
  (exists r w' c,
     catch_all v d path w = (r, w') /\
     upstream_calls w' = upstream_calls w ++ [c] /\
     user_prompt c
     = preamble v ++ current_system_prompt w
       ++ ([10; 10]%N ++ lit "---USER REQUEST---" ++ [10]%N)
       ++ page_prompt_of v d (page_name_of path)) /\
  (forall X : str, X <> [] ->
     exists r w1 w2 c,
       handle v d (ChangePrompt (lit "POST") (Some X)) w = (r, w1) /\
       snd (catch_all v d path w1) = w2 /\
       upstream_calls w2 = upstream_calls w ++ [c] /\
       user_prompt c
       = preamble v ++ X
         ++ ([10; 10]%N ++ lit "---USER REQUEST---" ++ [10]%N)
         ++ page_prompt_of v d (page_name_of path)).
Proof.
  assert (U : forall S pp,
             user_prompt (outbound_call v d S pp)
             = preamble v ++ S
               ++ ([10; 10]%N ++ lit "---USER REQUEST---" ++ [10]%N) ++ pp).
  { intros S pp. destruct v; reflexivity. }
  split.
  - destruct (catch_all_spec v d path w) as (body & w' & E & _ & C & _).
    eexists _, w', _. split; [exact E|]. split; [exact C|]. apply U.
  - intros X HX. cbn [handle]. unfold bind at 1.
    rewrite (change_prompt_post_set X w HX). unfold ret at 1.
    set (w1 := {| current_system_prompt := X;
                  upstream_calls := upstream_calls w;
                  stdout := stdout w |}).
    destruct (catch_all_spec v d path w1) as (body & w' & E & _ & C & _).
    cbn [current_system_prompt upstream_calls w1] in C.
    eexists _, w1, w', _. split; [reflexivity|].
    split; [now rewrite E|]. split; [exact C|]. apply U.
Qed.

Lemma composed_prompt_carries_system_prompt_witness :
  lit "Be brief." <> [] /\
  exists r w1 w2 c,
    handle app_gemini provider_up (ChangePrompt (lit "POST") (Some (lit "Be brief.")))
      (initial_world app_gemini) = (r, w1) /\
    snd (catch_all app_gemini provider_up (lit "products/vintage_cameras") w1) = w2 /\
    upstream_calls w2 = upstream_calls (initial_world app_gemini) ++ [c] /\
    user_prompt c
    = preamble app_gemini ++ lit "Be brief."
      ++ ([10; 10]%N ++ lit "---USER REQUEST---" ++ [10]%N)
      ++ page_prompt_of app_gemini provider_up
           (page_name_of (lit "products/vintage_cameras")).
Proof.
  split; [discriminate|].
  destruct (composed_prompt_carries_system_prompt app_gemini provider_up
              (lit "products/vintage_cameras") (initial_world app_gemini))
    as [_ H].
  apply H. discriminate.
Defined.

(** ** Worked examples *)

Example replace_scans_left_to_right :
  replace (lit "ab") (lit "X") (lit "cababbaab") = lit "cXXbaX".
Proof. reflexivity. Qed.

Example replace_joins_backticks :
  replace fence_html [] (lit "`` ```html`x") = lit "`` `x" /\
  remove_fences (lit "``` ```html``-````html``") = lit " ``-".
Proof. split; reflexivity. Qed.

Example strip_both_ends :
  strip (nl ++ lit "  a b " ++ nl) = lit "a b".
Proof. reflexivity. Qed.

Example split_at_first_occurrence :
  split_max1 (lit "--") (lit "a--b--c") = [lit "a"; lit "b--c"] /\
  split_max1 (lit "--") (lit "abc") = [lit "abc"].
Proof. split; reflexivity. Qed.

Example status_codes_in_decimal :
  str_of_int 404 = lit "404" /\ str_of_int 0 = lit "0".
Proof. split; reflexivity. Qed.

Example topic_of_nested_path :
  page_name_of (lit "products/vintage_cameras") = lit "products vintage cameras".
Proof. reflexivity. Qed.

Example fenced_page_end_to_end :
  fst (catch_all app_groq provider_up (lit "products/vintage_cameras")
         (initial_world app_groq))
  = Return {| data := bare_document ++ nl;
              status := 200;
              mimetype := lit "text/html" |}.
Proof. reflexivity. Qed.

Example mercury_serves_with_other_placeholder :
  exists w, startup app_mercury (Some (lit "your-fallback-api-key-here")) = Serving w.
Proof. eexists. reflexivity. Qed.

(** * Further properties of the code *)

(** ** More on the string operations *)

Lemma Subseq_refl (s : str) : Subseq s s.
Proof. induction s; now constructor. Qed.

Lemma Subseq_nil_l (s : str) : Subseq [] s.
Proof. induction s; now constructor. Qed.

Lemma Subseq_infix (x a b : str) : Subseq x (a ++ x ++ b).
Proof.
  induction a as [|c a IH]; cbn [app]; [|now constructor].
  induction x as [|c x IH]; cbn [app]; [apply Subseq_nil_l | now constructor].
Qed.

Lemma Subseq_trans (a b c : str) : Subseq a b -> Subseq b c -> Subseq a c.
Proof.
  intros Hab Hbc. revert a Hab.
  induction Hbc as [|x t s Hts IH|x t s Hts IH]; intros a Hab.
  - exact Hab.
  - inversion Hab; subst.
    + apply subseq_keep. now apply IH.
    + apply subseq_drop. now apply IH.
  - apply subseq_drop. now apply IH.
Qed.

Lemma Subseq_length (t s : str) : Subseq t s -> length t <= length s.
Proof. induction 1; simpl; lia. Qed.

(** Deleting the occurrences of a text leaves a subsequence. *)
Lemma replace_from_delete_Subseq (old : str) (k : nat) (s : str) :
  Subseq (replace_from old [] k s) s.
Proof.
  revert k; induction s as [|c s IH]; intros k; [constructor|].
  cbn [replace_from]. destruct k as [|k]; [|apply subseq_drop, IH].
  destruct (starts_with old (c :: s)).
  - cbn [app]. apply subseq_drop, IH.
  - apply subseq_keep, IH.
Qed.

Lemma remove_fences_Subseq (s : str) : Subseq (remove_fences s) s.
Proof.
  unfold remove_fences, replace.
  eapply Subseq_trans; apply replace_from_delete_Subseq.
Qed.

Lemma strip_Subseq (s : str) : Subseq (strip s) s.
Proof.
  destruct (strip_infix s) as (a & b & E). rewrite E at 2. apply Subseq_infix.
Qed.

(** A character that does not occur in [old] stops every match. *)
Lemma starts_with_barrier (old a : str) (c : char) (b : str) :
  ~ In c old -> starts_with old (a ++ c :: b) = starts_with old a.
Proof.
  revert a; induction old as [|o old IH]; intros a Hc; [now destruct a|].
  destruct a as [|x a]; cbn [app starts_with].
  - destruct (N.eqb_spec o c) as [->|]; [|reflexivity].
    exfalso. apply Hc. now left.
  - rewrite IH; [reflexivity|]. intros H. apply Hc. now right.
Qed.

Lemma starts_with_length (old s : str) :
  starts_with old s = true -> length old <= length s.
Proof.
  intros H. apply starts_with_inv in H as [t ->]. rewrite length_app. lia.
Qed.

Lemma replace_barrier_nil (old new : str) (c : char) (b : str) :
  old <> [] -> ~ In c old ->
  replace old new ([] ++ c :: b) = replace old new [] ++ c :: replace old new b.
Proof.
  intros Hold Hc. pose proof (starts_with_barrier old [] c b Hc) as E.
  cbn [app] in *. rewrite replace_miss; [reflexivity|].
  rewrite E. destruct old; [congruence | reflexivity].
Qed.

Lemma replace_barrier_le (n : nat) (old new a : str) (c : char) (b : str) :
  length a <= n -> old <> [] -> ~ In c old ->
  replace old new (a ++ c :: b) = replace old new a ++ c :: replace old new b.
Proof.
  revert a; induction n as [|n IH]; intros a Hn Hold Hc.
  - destruct a; [|simpl in Hn; lia]. now apply replace_barrier_nil.
  - destruct a as [|x a]; [now apply replace_barrier_nil|].
    pose proof (starts_with_barrier old (x :: a) c b Hc) as E.
    cbn [app] in *. destruct (starts_with old (x :: a)) eqn:S.
    + rewrite !replace_hit by assumption.
      pose proof (starts_with_length _ _ S) as L.
      change (x :: a ++ c :: b) with ((x :: a) ++ c :: b).
      rewrite skipn_app.
      replace (length old - length (x :: a)) with 0 by lia.
      cbn [skipn]. rewrite IH; [now rewrite app_assoc | | assumption..].
      rewrite length_skipn. destruct old; [congruence|].
      simpl in *. lia.
    + rewrite !replace_miss by assumption. cbn [app].
      rewrite IH; [reflexivity | simpl in Hn; lia | assumption..].
Qed.

Lemma replace_barrier (old new a : str) (c : char) (b : str) :
  old <> [] -> ~ In c old ->
  replace old new (a ++ c :: b) = replace old new a ++ c :: replace old new b.
Proof. now apply (replace_barrier_le (length a)). Qed.

(** Whitespace around a text does not survive [strip]. *)
Lemma lstrip_spaces (ws s : str) :
  all_space ws = true -> lstrip (ws ++ s) = lstrip s.
Proof.
  induction ws as [|c ws IH]; intros H; [reflexivity|].
  cbn [all_space forallb] in H. apply andb_true_iff in H as [H1 H2].
  cbn [app lstrip]. rewrite H1. now apply IH.
Qed.

Lemma lstrip_split (s : str) :
  exists ws, all_space ws = true /\ s = ws ++ lstrip s.
Proof.
  induction s as [|c s (ws & H1 & H2)]; [now exists []|].
  cbn [lstrip]. destruct (is_space c) eqn:E.
  - exists (c :: ws). cbn [all_space forallb app]. rewrite E.
    split; [exact H1 | now rewrite <- H2].
  - now exists [].
Qed.

Lemma all_space_rev (ws : str) : all_space (rev ws) = all_space ws.
Proof.
  unfold all_space. induction ws as [|c ws IH]; [reflexivity|].
  cbn [rev forallb]. rewrite forallb_app, IH. cbn [forallb].
  destruct (is_space c), (forallb is_space ws); reflexivity.
Qed.

Lemma rstrip_spaces (s ws : str) :
  all_space ws = true -> rstrip (s ++ ws) = rstrip s.
Proof.
  intros H. unfold rstrip. rewrite rev_app_distr, lstrip_spaces; [reflexivity|].
  now rewrite all_space_rev.
Qed.

Lemma strip_padding (ws1 s ws2 : str) :
  all_space ws1 = true -> all_space ws2 = true ->
  strip (ws1 ++ s ++ ws2) = strip s.
Proof.
  intros H1 H2. unfold strip. rewrite lstrip_spaces by assumption.
  destruct (lstrip_split s) as (ws & Hw & E).
  rewrite E at 1. rewrite <- app_assoc, lstrip_spaces by assumption.
  destruct (lstrip s) as [|c t] eqn:L.
  - cbn [app]. rewrite <- (app_nil_r ws2), lstrip_spaces by assumption.
    reflexivity.
  - apply lstrip_head in L. cbn [app lstrip]. rewrite L.
    change (c :: t ++ ws2) with ((c :: t) ++ ws2). now apply rstrip_spaces.
Qed.

(** ** More on the Response Sanitizer *)

Lemma cleaned_padding (ws1 raw ws2 : str) :
  all_space ws1 = true -> all_space ws2 = true ->
  cleaned (ws1 ++ raw ++ ws2) = cleaned raw.
Proof. intros H1 H2. unfold cleaned. now rewrite strip_padding. Qed.

Lemma sanitize_of_cleaned (v : Variant) (raw : str) :
  sanitize v raw
  = Return (match v with
            | app_mercury => cleaned raw
            | _ => to_document (cleaned raw)
            end).
Proof.
  destruct v; simpl;
    [apply gemini_sanitize_eq | apply groq_sanitize_eq | reflexivity].
Qed.

(** X1.  Whitespace around the raw answer never matters: padding an
    answer with whitespace on either side gives the same result. *)
Theorem sanitizer_ignores_padding (v : Variant) (ws1 raw ws2 : str) :
  all_space ws1 = true -> all_space ws2 = true ->
  sanitize v (ws1 ++ raw ++ ws2) = sanitize v raw.
Proof.
  intros H1 H2. rewrite !sanitize_of_cleaned.
  now rewrite (cleaned_padding ws1 raw ws2 H1 H2).
Qed.

Lemma sanitizer_ignores_padding_witness :
  all_space (nl ++ lit "  ") = true /\ all_space nl = true /\
  sanitize app_groq ((nl ++ lit "  ") ++ chatty_answer ++ nl)
  = sanitize app_groq chatty_answer.
Proof.
  split; [reflexivity|]. split; [reflexivity|].
  apply (sanitizer_ignores_padding app_groq (nl ++ lit "  ") chatty_answer nl);
    reflexivity.
Defined.

(** X2.  The sanitizer never adds or reorders characters: its result
    is the raw answer with some characters left out, so it is never
    longer than the raw answer. *)
Theorem sanitizer_only_deletes (v : Variant) (raw : str) :
  exists out,
    sanitize v raw = Return out /\ Subseq out raw /\ length out <= length raw.
Proof.
  destruct (sanitize_returns v raw) as (out & a & H & E).
  assert (S : Subseq out raw).
  { apply Subseq_trans with (b := cleaned raw).
    - rewrite E. rewrite <- (app_nil_r out) at 2. apply Subseq_infix.
    - unfold cleaned. eapply Subseq_trans;
        [apply remove_fences_Subseq | apply strip_Subseq]. }
  exists out. split; [exact H|]. split; [exact S | now apply Subseq_length].
Qed.

(** X3.  What variants A and B return is an end of what variant C
    returns for the same raw answer: the prefix trim is the only
    difference between the sanitizers. *)
Theorem trimmed_is_end_of_untrimmed (v : Variant) (raw : str) :
  exists untrimmed out dropped,
    sanitize app_mercury raw = Return untrimmed /\
    sanitize v raw = Return out /\
    untrimmed = dropped ++ out /\
    (contains DOCTYPE untrimmed = false ->
     contains HTML_TAG untrimmed = false -> dropped = []).
Proof.
  exists (cleaned raw).
  destruct v.
  - destruct (to_document_suffix (cleaned raw)) as [a Ha].
    exists (to_document (cleaned raw)), a.
    split; [reflexivity|]. split; [apply gemini_sanitize_eq|]. split; [exact Ha|].
    intros D H. unfold to_document in Ha. rewrite D, H in Ha.
    apply (app_inv_tail (cleaned raw)). now rewrite <- Ha.
  - destruct (to_document_suffix (cleaned raw)) as [a Ha].
    exists (to_document (cleaned raw)), a.
    split; [reflexivity|]. split; [apply groq_sanitize_eq|]. split; [exact Ha|].
    intros D H. unfold to_document in Ha. rewrite D, H in Ha.
    apply (app_inv_tail (cleaned raw)). now rewrite <- Ha.
  - exists (cleaned raw), []. repeat split.
Qed.

Lemma trimmed_is_end_of_untrimmed_witness :
  exists untrimmed out dropped,
    sanitize app_mercury (lit " plain ") = Return untrimmed /\
    sanitize app_gemini (lit " plain ") = Return out /\
    untrimmed = dropped ++ out /\
    dropped = [].
Proof.
  destruct (trimmed_is_end_of_untrimmed app_gemini (lit " plain "))
    as (u & o & dr & H1 & H2 & H3 & H4).
  exists u, o, dr. split; [exact H1|]. split; [exact H2|]. split; [exact H3|].
  injection H1 as <-. apply H4; reflexivity.
Defined.

(** X4.  A finished document passes unchanged: a text without fence
    markers and without trailing whitespace that begins with the
    DOCTYPE marker, or begins with [<html] and holds no DOCTYPE
    marker, is returned as it is by every sanitizer. *)
Theorem clean_document_unchanged (v : Variant) (document : str) :
  contains fence document = false ->
  rstrip document = document ->
  starts_with DOCTYPE document = true \/
  (starts_with HTML_TAG document = true /\ contains DOCTYPE document = false) ->
  sanitize v document = Return document.
Proof.
  intros F R S.
  assert (L : lstrip document = document).
  { destruct S as [S | [S _]]; apply starts_with_inv in S as [t ->]; reflexivity. }
  assert (C : cleaned document = document).
  { rewrite (cleaned_fence_free document F). unfold strip. now rewrite L. }
  rewrite sanitize_of_cleaned, C.
  assert (T : to_document document = document).
  { unfold to_document. destruct S as [S | [S D]].
    - now destruct (from_first_at_start _ _ S) as [-> ->].
    - rewrite D. now destruct (from_first_at_start _ _ S) as [-> ->]. }
  rewrite T. now destruct v.
Qed.

Lemma clean_document_unchanged_witness :
  contains fence bare_document = false /\
  rstrip bare_document = bare_document /\
  starts_with DOCTYPE bare_document = true /\
  sanitize app_mercury bare_document = Return bare_document.
Proof.
  split; [reflexivity|]. split; [reflexivity|]. split; [reflexivity|].
  apply (clean_document_unchanged app_mercury bare_document);
    [reflexivity | reflexivity | left; reflexivity].
Defined.

Lemma find_second (m : str) (c : char) (s : str) :
  starts_with m (c :: s) = false -> starts_with m s = true ->
  find m (c :: s) = Some 1.
Proof.
  intros H1 H2. cbn [find]. rewrite H1.
  assert (F : find m s = Some 0) by (destruct s; simpl; now rewrite H2).
  now rewrite F.
Qed.

Lemma not_in_fence_html : ~ In 10%N fence_html.
Proof. cbv. intuition discriminate. Qed.

Lemma not_in_fence : ~ In 10%N fence.
Proof. cbv. intuition discriminate. Qed.

(** The cleaned text of a fenced document keeps the two line feeds. *)
Lemma cleaned_wrap_in_fences (document : str) :
  contains fence document = false ->
  cleaned (wrap_in_fences document) = nl ++ document ++ nl.
Proof.
  intros F. unfold cleaned.
  assert (E : wrap_in_fences document
              = 96%N :: (lit "``html" ++ nl ++ document ++ nl ++ lit "``")
                ++ [96%N]).
  { unfold wrap_in_fences.
    change (lit "```html") with (96%N :: lit "``html").
    change (lit "```") with (lit "``" ++ [96%N]).
    cbn [app]. f_equal. now rewrite <- !app_assoc. }
  assert (S : strip (wrap_in_fences document) = wrap_in_fences document).
  { rewrite E. now apply strip_solid_prefix. }
  clear E.
  rewrite S. unfold wrap_in_fences, remove_fences.
  fold fence_html. fold fence. unfold nl. cbn [app].
  rewrite (replace_barrier fence_html [] fence_html 10%N) by
    (discriminate || apply not_in_fence_html).
  rewrite (replace_barrier fence_html [] document 10%N) by
    (discriminate || apply not_in_fence_html).
  rewrite (replace_absent fence_html [] document)
    by (rewrite fence_html_eq; now apply contains_false_longer).
  change (replace fence_html [] fence_html) with (@nil char).
  change (replace fence_html [] fence) with fence. cbn [app].
  rewrite replace_miss by reflexivity.
  rewrite (replace_barrier fence [] document 10%N) by
    (discriminate || apply not_in_fence).
  rewrite (replace_absent fence [] document F).
  reflexivity.
Qed.

(** X5.  A document handed over inside an [html] fence on lines of its
    own keeps the line feed in front of the closing fence: variants A
    and B return the document followed by a line feed, variant C
    returns it between two line feeds. *)
Theorem fenced_document_keeps_line_feed (v : Variant) (document : str) :
  contains fence document = false ->
  starts_with DOCTYPE document = true ->
  sanitize v (wrap_in_fences document)
  = Return (match v with
            | app_mercury => nl ++ document ++ nl
            | _ => document ++ nl
            end).
Proof.
  intros F S. rewrite sanitize_of_cleaned, (cleaned_wrap_in_fences document F).
  assert (T : to_document (nl ++ document ++ nl) = document ++ nl).
  { unfold to_document, contains, from_first, nl. cbn [app].
    rewrite (find_second DOCTYPE 10%N (document ++ [10%N])); [reflexivity.. |].
    apply starts_with_inv in S as [t ->]. rewrite <- app_assoc.
    apply starts_with_app. }
  destruct v; now rewrite ?T.
Qed.

Lemma fenced_document_keeps_line_feed_witness :
  contains fence bare_document = false /\
  starts_with DOCTYPE bare_document = true /\
  sanitize app_groq (wrap_in_fences bare_document) = Return (bare_document ++ nl).
Proof.
  split; [reflexivity|]. split; [reflexivity|].
  apply (fenced_document_keeps_line_feed app_groq bare_document); reflexivity.
Defined.

(** ** More on the handlers *)

Lemma forallb_Subseq (p : char -> bool) (t s : str) :
  Subseq t s -> forallb p s = true -> forallb p t = true.
Proof.
  induction 1 as [|c t s H IH|c t s H IH]; cbn [forallb]; intros F;
    [reflexivity | |];
    apply andb_true_iff in F as [F1 F2]; [|now apply IH].
  rewrite F1. now apply IH.
Qed.

Lemma sanitize_Subseq (v : Variant) (raw out : str) :
  sanitize v raw = Return out -> Subseq out raw.
Proof.
  intros H. destruct (sanitize_returns v raw) as (o & a & Ho & E).
  rewrite Ho in H. injection H as <-.
  apply Subseq_trans with (b := cleaned raw).
  - rewrite E. rewrite <- (app_nil_r o) at 2. apply Subseq_infix.
  - unfold cleaned. eapply Subseq_trans;
      [apply remove_fences_Subseq | apply strip_Subseq].
Qed.

(** X6.  When the provider answers with a text that holds no
    surrogate code point, the catch-all handler returns a 200
    text/html response whose body is the sanitized answer, itself free
    of surrogates, so that building the response cannot fail; it has
    made one call, left the stored prompt alone and printed two lines,
    the request path and the page prompt. *)
Theorem page_served_from_answer
    (v : Variant) (d : Deps) (path : str) (w : World) (t : str) :
  adapter_answers v d
    (outbound_call v d (current_system_prompt w)
       (page_prompt_of v d (page_name_of path))) t ->
  utf8_encodable t = true ->
  exists out w',
    sanitize v t = Return out /\
    utf8_encodable out = true /\
    catch_all v d path w
    = (Return {| data := out; status := 200; mimetype := lit "text/html" |}, w') /\
    current_system_prompt w' = current_system_prompt w /\
    upstream_calls w'
    = upstream_calls w
      ++ [outbound_call v d (current_system_prompt w)
            (page_prompt_of v d (page_name_of path))] /\
    stdout w'
    = stdout w
      ++ [lit "Generating page for path: /" ++ path;
          lit "Generated prompt: " ++ page_prompt_of v d (page_name_of path)].
Proof.
  intros H U.
  exists (match v with
          | app_mercury => cleaned t
          | _ => to_document (cleaned t)
          end).
  assert (S : sanitize v t
              = Return (match v with
                        | app_mercury => cleaned t
                        | _ => to_document (cleaned t)
                        end)) by apply sanitize_of_cleaned.
  assert (K : utf8_encodable
                (match v with
                 | app_mercury => cleaned t
                 | _ => to_document (cleaned t)
                 end) = true).
  { apply (forallb_Subseq _ _ t); [|exact U]. now apply (sanitize_Subseq v). }
  destruct v;
    cbn [catch_all outbound_call page_prompt_of sanitize adapter_answers] in *.
  - unfold Gemini.catch_all, Gemini.generate_html_with_llm. run_handler.
    rewrite H, gemini_sanitize_eq. eexists.
    split; [reflexivity|]. split; [exact K|]. repeat split.
    cbn [stdout]. now rewrite <- app_assoc.
  - unfold Groq.catch_all, Groq.generate_html_with_llm. run_handler.
    rewrite H, groq_sanitize_eq. eexists.
    split; [reflexivity|]. split; [exact K|]. repeat split.
    cbn [stdout]. now rewrite <- app_assoc.
  - destruct H as (r & H & Hs & Hj).
    unfold Mercury.catch_all, Mercury.generate_html_with_llm. run_handler.
    rewrite H, Hs, Hj. cbn [Z.eqb Pos.eqb]. eexists.
    split; [reflexivity|]. split; [exact K|]. repeat split.
    cbn [stdout]. now rewrite <- app_assoc.
Qed.

Lemma page_served_from_answer_witness :
  adapter_answers app_mercury provider_up
    (outbound_call app_mercury provider_up
       (current_system_prompt (initial_world app_mercury))
       (page_prompt_of app_mercury provider_up (page_name_of (lit "about_us"))))
    fenced_answer /\
  utf8_encodable fenced_answer = true /\
  exists w',
    catch_all app_mercury provider_up (lit "about_us") (initial_world app_mercury)
    = (Return {| data := nl ++ bare_document ++ nl;
                 status := 200;
                 mimetype := lit "text/html" |}, w').
Proof.
  assert (H : adapter_answers app_mercury provider_up
                (outbound_call app_mercury provider_up
                   (current_system_prompt (initial_world app_mercury))
                   (page_prompt_of app_mercury provider_up
                      (page_name_of (lit "about_us"))))
                fenced_answer).
  { eexists. repeat split. }
  split; [exact H|]. split; [reflexivity|].
  destruct (page_served_from_answer app_mercury provider_up (lit "about_us")
              (initial_world app_mercury) fenced_answer H eq_refl)
    as (out & w' & S & _ & E & _).
  assert (K : sanitize app_mercury fenced_answer
              = Return (nl ++ bare_document ++ nl)) by reflexivity.
  rewrite K in S. injection S as <-. exists w'. exact E.
Defined.

Lemma change_prompt_cases (method : str) (np : option str) (w : World) :
  (exists p, str_eqb method (lit "POST") = true /\ np = Some p /\ p <> [] /\
             change_prompt method np w
             = (Return prompt_updated_page,
                {| current_system_prompt := p;
                   upstream_calls := upstream_calls w;
                   stdout := stdout w |})) \/
  ((str_eqb method (lit "POST") = false \/ np = None \/ np = Some []) /\
   change_prompt method np w
   = (Return (change_prompt_form (current_system_prompt w)), w)).
Proof.
  unfold change_prompt. destruct (str_eqb method (lit "POST")) eqn:E.
  - destruct np as [[|c p]|].
    + right. split; [now right; right | reflexivity].
    + left. exists (c :: p). repeat split. discriminate.
    + right. split; [now right; left | reflexivity].
  - right. split; [now left | reflexivity].
Qed.

(** X7.  An editor request, whatever its method and whatever its
    form holds, makes no provider call and prints nothing. *)
Theorem editor_is_local
    (v : Variant) (d : Deps) (method : str) (np : option str) (w : World) :
  upstream_calls (snd (handle v d (ChangePrompt method np) w)) = upstream_calls w /\
  stdout (snd (handle v d (ChangePrompt method np) w)) = stdout w.
Proof.
  cbn [handle]. unfold bind, ret.
  destruct (change_prompt_cases method np w)
    as [(p & _ & _ & _ & E) | (_ & E)]; rewrite E; split; reflexivity.
Qed.

Lemma editor_get_keeps_world (v : Variant) (d : Deps) (np : option str) (w : World) :
  snd (handle v d (ChangePrompt (lit "GET") np) w) = w.
Proof. reflexivity. Qed.

(** X8.  A GET never writes: after any sequence of GET requests to the
    prompt editor, whatever form fields they carry, the prompt, the
    calls made and the output are exactly what they were. *)
Theorem editor_get_is_read_only
    (v : Variant) (rs : list (Deps * Request)) (w : World) :
  editor_gets rs -> run v rs w = w.
Proof.
  intros H. revert w. induction H as [|[d r] rs [np Hr] _ IH]; intros w.
  - reflexivity.
  - cbn [snd] in Hr. subst r. cbn [run].
    rewrite editor_get_keeps_world. apply IH.
Qed.

Lemma editor_get_is_read_only_witness :
  editor_gets [(provider_up, ChangePrompt (lit "GET") (Some (lit "new")));
               (provider_down, ChangePrompt (lit "GET") None)] /\
  run app_gemini
    [(provider_up, ChangePrompt (lit "GET") (Some (lit "new")));
     (provider_down, ChangePrompt (lit "GET") None)]
    (initial_world app_gemini)
  = initial_world app_gemini.
Proof.
  assert (H : editor_gets
                [(provider_up, ChangePrompt (lit "GET") (Some (lit "new")));
                 (provider_down, ChangePrompt (lit "GET") None)]).
  { repeat constructor; eexists; reflexivity. }
  split; [exact H|].
  apply (editor_get_is_read_only app_gemini _ (initial_world app_gemini) H).
Defined.

Lemma handle_prompt (v : Variant) (d : Deps) (r : Request) (w : World) :
  current_system_prompt (snd (handle v d r w))
  = last_posted [(d, r)] (current_system_prompt w).
Proof.
  destruct r as [method np | path]; cbn [handle last_posted].
  - unfold bind, ret.
    destruct (change_prompt_cases method np w)
      as [(p & M & -> & P & E) | (C & E)]; rewrite E; cbn [snd].
    + rewrite M. destruct p; [congruence | reflexivity].
    + destruct np as [p|]; [|reflexivity].
      destruct C as [C | [C | C]]; [now rewrite C | discriminate |].
      injection C as ->. now rewrite andb_false_r.
  - destruct (catch_all_spec v d path w) as (body & w' & E & P & _).
    now rewrite E.
Qed.

Lemma last_posted_cons (x : Deps * Request) (rs : list (Deps * Request)) (cur : str) :
  last_posted (x :: rs) cur = last_posted rs (last_posted [x] cur).
Proof.
  destruct x as [d [method [p|] | path]]; cbn [last_posted]; try reflexivity.
  now destruct (str_eqb method (lit "POST") && truthy p).
Qed.

(** X9.  Last writer wins: after any sequence of requests the stored
    prompt is the last non-empty [new_prompt] that was posted, or the
    prompt before the sequence when none was; page requests and the
    provider's answers have no part in it. *)
Theorem last_writer_wins (v : Variant) (rs : list (Deps * Request)) (w : World) :
  current_system_prompt (run v rs w) = last_posted rs (current_system_prompt w).
Proof.
  revert w; induction rs as [|[d r] rs IH]; intros w; [reflexivity|].
  cbn [run]. now rewrite IH, handle_prompt, <- last_posted_cons.
Qed.

Lemma handle_calls (v : Variant) (d : Deps) (r : Request) (w : World) :
  length (upstream_calls (snd (handle v d r w)))
  = length (upstream_calls w) + page_requests [(d, r)].
Proof.
  destruct r as [method np | path]; cbn [page_requests].
  - cbn [handle]. unfold bind, ret.
    destruct (change_prompt_cases method np w)
      as [(p & _ & _ & _ & E) | (_ & E)]; rewrite E; cbn [snd upstream_calls]; lia.
  - cbn [handle]. destruct (catch_all_spec v d path w) as (body & w' & E & _ & C & _).
    rewrite E. cbn [snd]. rewrite C, length_app. reflexivity.
Qed.

Lemma page_requests_cons (x : Deps * Request) (rs : list (Deps * Request)) :
  page_requests (x :: rs) = page_requests [x] + page_requests rs.
Proof. destruct x as [d [method np | path]]; reflexivity. Qed.

(** X10.  One provider call per page request and none otherwise: a
    sequence of requests adds as many calls as it has catch-all
    requests, whether the provider answers or fails. *)
Theorem one_call_per_page (v : Variant) (rs : list (Deps * Request)) (w : World) :
  length (upstream_calls (run v rs w))
  = length (upstream_calls w) + page_requests rs.
Proof.
  revert w; induction rs as [|[d r] rs IH]; intros w; [cbn; lia|].
  cbn [run]. rewrite IH, handle_calls, (page_requests_cons (d, r) rs). lia.
Qed.

(** ** More on startup *)

(** X11.  Which keys stop an application: [app-gemini.py] exits exactly
    when the key is missing, empty or the fallback literal;
    [app-mercury.py] exits exactly when it is missing or empty, so it
    serves with the fallback literal; [app-groq.py] never exits. *)
Theorem startup_exits_iff (v : Variant) (env : option str) :
  (exists out, startup v env = Exited out) <->
  match v with
  | app_gemini =>
      environ_get env = [] \/ environ_get env = lit "your-fallback-api-key-here"
  | app_groq => False
  | app_mercury => environ_get env = []
  end.
Proof.
  destruct v; cbn [startup].
  - unfold Gemini.startup. cbv zeta.
    destruct (environ_get env) as [|c k] eqn:K; cbn [truthy negb orb].
    + split; [now left | intros _; now eexists].
    + destruct (str_eqb (c :: k) (lit "your-fallback-api-key-here")) eqn:E.
      * apply str_eqb_eq in E. split; [now right | intros _; now eexists].
      * split; [intros [out H]; discriminate|].
        intros [H | H]; [discriminate|].
        apply str_eqb_eq in H. congruence.
  - unfold Groq.startup. cbv zeta. split; [intros [out H]; discriminate | tauto].
  - unfold Mercury.startup. cbv zeta.
    destruct (environ_get env) as [|c k]; cbn [truthy negb orb str_eqb].
    + split; [reflexivity | intros _; now eexists].
    + split; [intros [out H]; discriminate | discriminate].
Qed.

Lemma slice_to_short (n : nat) (s : str) : length s <= n -> slice_to n s = s.
Proof. intros H. unfold slice_to. now apply firstn_all2. Qed.

Lemma key_digest_length (key : str) : length (key_digest key) <= 17.
Proof.
  unfold key_digest, slice_to, slice_last.
  rewrite !length_app, length_firstn, length_skipn.
  change (length (lit "...")) with 3. lia.
Qed.

Lemma occurs_in_end (x s : str) : occurs_in x (s ++ x).
Proof. exists s, []. now rewrite app_nil_r. Qed.

Ltac digest_line key D :=
  split;
  [ match goal with
    | |- occurs_in _ (?pre ++ _) => apply (occurs_in_end (key_digest key) pre)
    end
  | split;
    [ apply key_digest_length
    | match goal with
      | |- _ -> occurs_in _ (?pre ++ _) => apply (D pre)
      end ] ].

(** X12.  What the startup message shows of an accepted key: a line is
    printed that holds the first ten characters, three dots and the
    last four characters, at most 17 characters in all; a key of ten
    characters or fewer is therefore printed in full. *)
Theorem startup_prints_key_digest (v : Variant) (key : str) :
  key <> [] -> key <> placeholder v ->
  exists w line,
    startup v (Some key) = Serving w /\
    In line (stdout w) /\
    occurs_in (key_digest key) line /\
    length (key_digest key) <= 17 /\
    (length key <= 10 -> occurs_in key line).
Proof.
  intros K P.
  assert (T : truthy key = true) by (destruct key; [congruence | reflexivity]).
  assert (D : forall pre, length key <= 10 ->
                          occurs_in key (pre ++ key_digest key)).
  { intros pre L. apply occurs_in_later. unfold key_digest.
    rewrite (slice_to_short 10 key L). apply occurs_in_here. }
  destruct v; cbn [startup placeholder] in *.
  - unfold Gemini.startup. cbn [environ_get]. cbv zeta. rewrite T.
    destruct (str_eqb key (lit "your-fallback-api-key-here")) eqn:E;
      [apply str_eqb_eq in E; contradiction|].
    cbn [negb orb]. eexists _, _. split; [reflexivity|].
    split; [now left|]. digest_line key D.
  - unfold Groq.startup. cbn [environ_get]. cbv zeta. rewrite T.
    eexists _, _. split; [reflexivity|].
    split; [right; now left|]. digest_line key D.
  - unfold Mercury.startup. cbn [environ_get]. cbv zeta. rewrite T.
    assert (E : str_eqb key [] = false) by (destruct key; [congruence | reflexivity]).
    rewrite E. cbn [negb orb]. eexists _, _. split; [reflexivity|].
    split; [now left|]. digest_line key D.
Qed.

Lemma startup_prints_key_digest_witness :
  lit "short-key" <> [] /\ lit "short-key" <> placeholder app_mercury /\
  exists w line,
    startup app_mercury (Some (lit "short-key")) = Serving w /\
    In line (stdout w) /\
    occurs_in (lit "short-key") line.
Proof.
  split; [discriminate|]. split; [discriminate|].
  destruct (startup_prints_key_digest app_mercury (lit "short-key"))
    as (w & line & S & I & _ & _ & F); [discriminate | discriminate |].
  exists w, line. split; [exact S|]. split; [exact I|].
  apply F. cbn. lia.
Defined.

(** ** More on the topic phrase and the page prompt *)

Lemma page_name_of_cons (c : char) (path : str) :
  page_name_of (c :: path)
  = map (fun a => if (N.eqb a 47 || N.eqb a 95)%bool then 32%N else a) (c :: path).
Proof.
  unfold page_name_of. cbn [truthy negb].
  change (lit "/") with [47%N]. change (lit "_") with [95%N].
  change (lit " ") with [32%N].
  rewrite !replace_char, map_map. apply map_ext. intros a.
  destruct (N.eqb a 47) eqn:E1; [reflexivity|].
  destruct (N.eqb a 95); reflexivity.
Qed.

(** X13.  The topic phrase is never empty and holds no slash and no
    underscore; for a non-empty path it is as long as the path; and
    translating a topic phrase again changes nothing. *)
Theorem topic_phrase_facts (path : str) :
  page_name_of path <> [] /\
  (forall c, In c (page_name_of path) -> c <> 47%N /\ c <> 95%N) /\
  (path <> [] -> length (page_name_of path) = length path) /\
  page_name_of (page_name_of path) = page_name_of path.
Proof.
  destruct path as [|c path].
  - split; [discriminate|]. split; [|split; [congruence | reflexivity]].
    intros a H. cbv in H. intuition (subst; discriminate).
  - rewrite page_name_of_cons.
    set (f := fun a => if (N.eqb a 47 || N.eqb a 95)%bool then 32%N else a).
    split; [discriminate|]. split; [|split].
    + intros a H. apply in_map_iff in H as (b & <- & _). unfold f.
      destruct (N.eqb_spec b 47), (N.eqb_spec b 95); cbn [orb];
        split; congruence || discriminate.
    + intros _. apply length_map.
    + cbn [map]. rewrite page_name_of_cons. fold f.
      change (f c :: map f path) with (map f (c :: path)).
      rewrite map_map. apply map_ext. intros a. unfold f.
      destruct (N.eqb a 47 || N.eqb a 95)%bool eqn:E; [reflexivity|].
      now rewrite E.
Qed.

Lemma topic_phrase_facts_witness :
  lit "blog/the_future_of_ai" <> [] /\
  length (page_name_of (lit "blog/the_future_of_ai"))
  = length (lit "blog/the_future_of_ai").
Proof.
  split; [discriminate|].
  destruct (topic_phrase_facts (lit "blog/the_future_of_ai")) as (_ & _ & H & _).
  apply H. discriminate.
Defined.





(** X15.  A failed provider call is logged after the two request
    lines: an exception as one line ending in its message; a status
    other than 200 (variant C) as two lines, the status and the raw
    body of the answer.  The raw body goes to the log only: the
    response is the error fragment of the status code. *)
Theorem failure_is_logged
    (v : Variant) (d : Deps) (path : str) (w : World) (f : Failure) :
  adapter_fails v d
    (outbound_call v d (current_system_prompt w)
       (page_prompt_of v d (page_name_of path))) f ->
  exists w' logged,
    catch_all v d path w
    = (Return (Response_ (error_fragment v f) (lit "text/html")), w') /\
    stdout w'
    = stdout w
      ++ [lit "Generating page for path: /" ++ path;
          lit "Generated prompt: " ++ page_prompt_of v d (page_name_of path)]
      ++ logged /\
    match f with
    | Raised e =>
        logged = [lit "An unexpected error occurred with the "
                  ++ provider_name v ++ lit " API: " ++ e]
    | BadStatus code =>
        exists r,
          http d (outbound_call v d (current_system_prompt w)
                    (page_prompt_of v d (page_name_of path))) = Return r /\
          logged = [lit "API request failed with status code: " ++ str_of_int code;
                    lit "Response: " ++ text r]
    end.
Proof.
  intros [e Hv H | e Hv H | r Hv H Hs | r e Hv H Hs Hj].
  - destruct v; [| |congruence];
      cbn [catch_all outbound_call page_prompt_of] in *;
      [unfold Gemini.catch_all, Gemini.generate_html_with_llm
      |unfold Groq.catch_all, Groq.generate_html_with_llm];
      run_handler; rewrite H; eexists _, _;
      (split; [reflexivity|]); cbn [stdout];
      (split; [rewrite <- !app_assoc; reflexivity | reflexivity]).
  - subst v. cbn [catch_all outbound_call page_prompt_of] in *.
    unfold Mercury.catch_all, Mercury.generate_html_with_llm. run_handler.
    rewrite H. eexists _, _. split; [reflexivity|]. cbn [stdout].
    split; [rewrite <- !app_assoc; reflexivity | reflexivity].
  - subst v. cbn [catch_all outbound_call page_prompt_of] in *.
    unfold Mercury.catch_all, Mercury.generate_html_with_llm. run_handler.
    rewrite H. apply Z.eqb_neq in Hs. rewrite Hs.
    eexists _, _. split; [reflexivity|]. cbn [stdout].
    split; [rewrite <- !app_assoc; reflexivity|].
    exists r. split; reflexivity.
  - subst v. cbn [catch_all outbound_call page_prompt_of] in *.
    unfold Mercury.catch_all, Mercury.generate_html_with_llm. run_handler.
    rewrite H, Hs, Hj. cbn [Z.eqb Pos.eqb]. eexists _, _.
    split; [reflexivity|]. cbn [stdout].
    split; [rewrite <- !app_assoc; reflexivity | reflexivity].
Qed.

Lemma failure_is_logged_witness :
  exists w',
    catch_all app_groq provider_down (lit "pricing") (initial_world app_groq)
    = (Return (Response_ (error_fragment app_groq (Raised (lit "connection refused")))
                 (lit "text/html")), w') /\
    stdout w'
    = [lit "Generating page for path: /pricing";
       lit "Generated prompt: "
       ++ page_prompt_of app_groq provider_down (page_name_of (lit "pricing"));
       lit "An unexpected error occurred with the Groq API: connection refused"].
Proof.
  destruct (failure_is_logged app_groq provider_down (lit "pricing")
              (initial_world app_groq) (Raised (lit "connection refused")))
    as (w' & logged & E & S & L).
  - apply sdk_raises; [discriminate | reflexivity].
  - exists w'. split; [exact E|]. rewrite S, L. reflexivity.
Defined.

Lemma startup_exits_iff_witness :
  environ_get None = [] /\ exists out, startup app_mercury None = Exited out.
Proof.
  split; [reflexivity|].
  apply (startup_exits_iff app_mercury None). reflexivity.
Defined.
